(** * GenerateModel: synthetic transit light curves

    A shallow embedding of [src/GenerateModel.cpp].  The program computes in
    C++ [double]; it is translated once, over the interfaces [Arith] and [Cmath]
    of the arithmetic it uses, and read at two instances:

    - [float_arith]: IEEE 754 binary64 (Rocq's primitive floats), with the
      C library functions the program calls ([pow], [sin], [cos], [acos],
      [modf]) taken as a parameter of class [Cmath];
    - [real_arith], [real_cmath]: exact real arithmetic, the reading in
      which the formulas of the program are ordinarily understood.

    [Model.h] and [constants.h] are not part of the sources at hand: the
    model record lists the fields [GenerateSynthetic] reads, and the physical
    constants are a parameter [Constants]. *)

From Stdlib Require Import ZArith List Bool Reals Lra Lia Floats.
Import ListNotations.

Set Implicit Arguments.

(** ** Outcomes of a run *)

(** [vector::at] throws [std::out_of_range]; a [for] loop over [double]s
    need not end, so loops carry an iteration budget. *)
Inductive result (T : Type) : Type :=
| Ok (v : T)
| OutOfRange
| Diverged.

Arguments Ok {T} v.
Arguments OutOfRange {T}.
Arguments Diverged {T}.

Definition bind {T U : Type} (r : result T) (k : T -> result U) : result U :=
  match r with
  | Ok v => k v
  | OutOfRange => OutOfRange
  | Diverged => Diverged
  end.

Notation "x <- e ;; k" := (bind e (fun x => k))
  (at level 61, e at next level, right associativity).

(** [v.at(n)] *)
Definition vec_at {T : Type} (v : list T) (n : nat) : result T :=
  match nth_error v n with
  | Some x => Ok x
  | None => OutOfRange
  end.

(** [v[n] = x] on a vector that is long enough (the program only writes
    inside a vector of size 5). *)
Fixpoint vec_set {T : Type} (v : list T) (n : nat) (x : T) : list T :=
  match v, n with
  | [], _ => []
  | _ :: tl, O => x :: tl
  | hd :: tl, S k => hd :: vec_set tl k x
  end.

(** ** The arithmetic of [double] *)

(** The operations that IEEE 754 fixes to the last bit: the operators of the
    language, and [sqrt] and [fabs]. *)
Class Arith (A : Type) : Type := {
  of_Z : Z -> A;               (* an integer literal or an [int] converted *)
  dadd : A -> A -> A;
  dsub : A -> A -> A;
  dmul : A -> A -> A;
  ddiv : A -> A -> A;
  dopp : A -> A;
  dleb : A -> A -> bool;       (* [x <= y] *)
  dltb : A -> A -> bool;       (* [x < y]; [x > y] is [dltb y x] *)
  dsqrt : A -> A;
  dfabs : A -> A
}.

(** The other functions of [<cmath>] that the program calls. *)
Class Cmath (A : Type) : Type := {
  dpow : A -> A -> A;
  dsin : A -> A;
  dcos : A -> A;
  dacos : A -> A;
  dmodf : A -> A               (* the value [modf] returns: the fractional part *)
}.

Declare Scope dbl_scope.
Delimit Scope dbl_scope with D.
Infix "+" := dadd : dbl_scope.
Infix "-" := dsub : dbl_scope.
Infix "*" := dmul : dbl_scope.
Infix "/" := ddiv : dbl_scope.
Notation "- x" := (dopp x) : dbl_scope.
Infix "<=?" := dleb : dbl_scope.
Infix "<?" := dltb : dbl_scope.
Notation "x >? y" := (dltb y x) (only parsing) : dbl_scope.
Notation "'#' z" := (of_Z z%Z) (at level 1, z at level 0, format "# z") : dbl_scope.

(** ** The program *)

Section Program.

Context {A : Type} {SA : Arith A} {CA : Cmath A}.
Local Open Scope dbl_scope.

(** Modelled from the spec: [Model.h] is missing.  The record has the fields
    of the spec's model-parameter record, which are the fields that
    [GenerateSynthetic] reads. *)
Record Model : Type := {
  a : A;        (* semi-major axis, AU *)
  rs : A;       (* stellar radius, solar radii *)
  rp : A;       (* planetary radius, Jupiter radii *)
  period : A;   (* days *)
  epoch : A;    (* Julian date of mid-transit *)
  i : A;        (* inclination, degrees *)
  c1 : A;
  c2 : A;
  c3 : A;
  c4 : A
}.

(** Modelled from the spec: [constants.h] is missing.  The program names
    these constants of [constants.h] and [<cmath>]; their values are a
    parameter of [GenerateSynthetic]. *)
Record Constants : Type := {
  AU : A;
  rSun : A;
  rJup : A;
  secondsInDay : A;
  radiansInDegree : A;
  M_PI : A
}.

(** Decimal literals of the source: the quotient of two integers rounds to
    the nearest [double], as the literal does. *)
Definition lit_0_001 : A := #1 / #1000.
Definition lit_0_5 : A := #1 / #2.
Definition lit_0_25 : A := #1 / #4.

(** [calcOmega], lines 31-39. *)
Definition calcOmega (coeffs : list A) : result A :=
  fold_left
    (fun acc n =>
       returnval <- acc ;;
       c <- vec_at coeffs n ;;
       Ok (returnval + c / (#(Z.of_nat n) + #4)))
    (seq 0 5) (Ok #0).

(** [square], line 49. *)
Definition square (val : A) : A := val * val.

(** [I(r, c1, c2, c3, c4)], lines 69-79. *)
Definition I (r c1 c2 c3 c4 : A) : A :=
  let rprimed := #1 - square r in
  let I := #1 in
  let I := I - c1 * (#1 - dpow rprimed (#1 / #4)) in
  let I := I - c2 * (#1 - dpow rprimed (#2 / #4)) in
  let I := I - c3 * (#1 - dpow rprimed (#3 / #4)) in
  let I := I - c4 * (#1 - dpow rprimed (#4 / #4)) in
  I.

(** [I(r, coeffs)], lines 97-105. *)
Definition I_vec (r : A) (coeffs : list A) : result A :=
  c1 <- vec_at coeffs 0 ;;
  c2 <- vec_at coeffs 1 ;;
  c3 <- vec_at coeffs 2 ;;
  c4 <- vec_at coeffs 3 ;;
  Ok (I r c1 c2 c3 c4).

(** The loop of [IntegratedI], lines 126-129: [r] and [sum] are the loop
    state, [fuel] bounds the number of tests of [r <= rhigh]. *)
Fixpoint IntegratedI_loop (fuel : nat) (dr c1 c2 c3 c4 rhigh r sum : A)
  : result A :=
  match fuel with
  | O => Diverged
  | S fuel' =>
      if r <=? rhigh
      then IntegratedI_loop fuel' dr c1 c2 c3 c4 rhigh
             (r + dr) (sum + I r c1 c2 c3 c4 * dr * #2 * r)
      else Ok sum
  end.

(** The radii at which the loop of [IntegratedI] evaluates the intensity:
    the values that [r] takes while the test [r <= rhigh] holds (lines
    126-129, without the sum). *)
Fixpoint IntegratedI_radii (fuel : nat) (dr rhigh r : A) : option (list A) :=
  match fuel with
  | O => None
  | S fuel' =>
      if r <=? rhigh
      then option_map (cons r) (IntegratedI_radii fuel' dr rhigh (r + dr))
      else Some []
  end.

(** [IntegratedI(dr, c1, c2, c3, c4, rlow, rhigh)], lines 123-132. *)
Definition IntegratedI (fuel : nat) (dr c1 c2 c3 c4 rlow rhigh : A)
  : result A :=
  let sum := #0 in
  IntegratedI_loop fuel dr c1 c2 c3 c4 rhigh rlow sum.

(** [IntegratedI(dr, coeffs, rlow, rhigh)], lines 148-156. *)
Definition IntegratedI_vec (fuel : nat) (dr : A) (coeffs : list A)
  (rlow rhigh : A) : result A :=
  c1 <- vec_at coeffs 0 ;;
  c2 <- vec_at coeffs 1 ;;
  c3 <- vec_at coeffs 2 ;;
  c4 <- vec_at coeffs 3 ;;
  IntegratedI fuel dr c1 c2 c3 c4 rlow rhigh.

(** *** [GenerateSynthetic], lines 159-263 *)

Variable K : Constants.

(** Line 164. *)
Definition normalisedDistance (m : Model) : A :=
  a m * AU K / (rs m * rSun K).

(** Line 167. *)
Definition dr : A := lit_0_001.

(** Lines 170-175: the coefficients packed into a vector of size 5. *)
Definition pack_coeffs (m : Model) : list A :=
  let coeffs := repeat #0 5 in
  let coeffs := vec_set coeffs 1 (c1 m) in
  let coeffs := vec_set coeffs 2 (c2 m) in
  let coeffs := vec_set coeffs 3 (c3 m) in
  let coeffs := vec_set coeffs 4 (c4 m) in
  let coeffs :=
    vec_set coeffs 0
      (#1 - nth 1 coeffs #0 - nth 2 coeffs #0 - nth 3 coeffs #0
          - nth 4 coeffs #0) in
  coeffs.

(** Line 179. *)
Definition angFreq (m : Model) : A :=
  #2 * M_PI K / (period m * secondsInDay K).

(** Line 183. *)
Definition cosi (m : Model) : A := dcos (i m * radiansInDegree K).

(** Line 185. *)
Definition ratio_p (m : Model) : A := (rp m * rJup K) / (rs m * rSun K).

(** Line 190: seconds since epoch. *)
Definition seconds_since_epoch (m : Model) (jd_i : A) : A :=
  (jd_i - epoch m) * secondsInDay K.

(** Lines 193-199: the projected separation. *)
Definition separation (m : Model) (t : A) : A :=
  let firstTerm := square (dsin (angFreq m * t)) in
  let secondTerm := square (cosi m * dcos (angFreq m * t)) in
  normalisedDistance m * dsqrt (firstTerm + secondTerm).

(** Lines 201-203: the folded phase. *)
Definition folded_phase (m : Model) (t : A) : A :=
  let phase := dfabs (dmodf (t / (period m * secondsInDay K))) in
  if phase >? lit_0_5 then phase - #1 else phase.

(** Lines 205-249: the flux of one sample from its phase and separation. *)
Definition sample_F (fuel : nat) (coeffs : list A) (omega p z phase : A)
  : result A :=
  if (phase >? - lit_0_25) && (phase <? lit_0_25)
  then
    if z <=? #1 - p
    then
      let norm := #1 / (#4 * z * p) in
      integral <- IntegratedI_vec fuel dr coeffs (z - p) (z + p) ;;
      let integral := integral * norm in
      Ok (#1 - (square p * integral / #4 / omega))
    else if z >? #1 + p
    then Ok #1
    else
      let startPoint := z - p in
      let a := square startPoint in
      let norm := #1 / (#1 - a) in
      integral <- IntegratedI_vec fuel dr coeffs startPoint #1 ;;
      let integral := integral * norm in
      let insideSqrt := square p - square (z - #1) in
      let sqrtVal := dsqrt insideSqrt in
      let sqrtVal := sqrtVal * (z - #1) in
      let insideAcos := (z - #1) / p in
      let firstTerm := square p * dacos insideAcos in
      Ok (#1 - (integral * (firstTerm - sqrtVal) / (#4 * M_PI K * omega)))
  else Ok #1.

(** The body of the loop over the timestamps, lines 188-255, up to the
    [push_back]. *)
Definition sample (fuel : nat) (m : Model) (coeffs : list A) (omega : A)
  (jd_i : A) : result A :=
  let t := seconds_since_epoch m jd_i in
  let z := separation m t in
  let phase := folded_phase m t in
  sample_F fuel coeffs omega (ratio_p m) z phase.

(** The counter of line 187 is an [unsigned int]: [++i] wraps at [2^32]. *)
Definition uint_succ (i : Z) : Z := ((i + 1) mod 2 ^ 32)%Z.

(** The loop over the timestamps, lines 187-257: [i] is the counter,
    compared with [jd.size()] (a [size_t], not 32 bits wide); [Flux] is
    the vector that the loop appends to; [steps] bounds the number of tests
    of [i < jd.size()]. *)
Fixpoint GenerateSynthetic_loop (steps fuel : nat) (m : Model)
  (coeffs : list A) (omega : A) (jd : list A) (i : Z) (Flux : list A)
  : result (list A) :=
  match steps with
  | O => Diverged
  | S steps' =>
      if Z.ltb i (Z.of_nat (length jd))
      then
        jd_i <- vec_at jd (Z.to_nat i) ;;
        F <- sample fuel m coeffs omega jd_i ;;
        GenerateSynthetic_loop steps' fuel m coeffs omega jd (uint_succ i)
          (Flux ++ [F])
      else Ok Flux
  end.

(** [GenerateSynthetic], lines 159-263.  The loop over the timestamps
    either ends at its test number [jd.size() + 1] or, when the counter
    wraps before it reaches [jd.size()], never: that many tests decide
    (lemmas [GenerateSynthetic_loop_skipn] and
    [GenerateSynthetic_loop_wraps] below hold for every number of tests). *)
Definition GenerateSynthetic (fuel : nat) (jd : list A) (m : Model)
  : result (list A) :=
  let Flux := [] in
  let coeffs := pack_coeffs m in
  omega <- calcOmega coeffs ;;
  GenerateSynthetic_loop (S (length jd)) fuel m coeffs omega jd 0%Z Flux.

(** The point-wise map of the spec ("the model is strictly a point-wise
    map over timestamps"): the flux of each timestamp in turn, appended
    to [Flux]; the first failure ends it. *)
Fixpoint pointwise_loop (fuel : nat) (m : Model) (coeffs : list A)
  (omega : A) (jd : list A) (Flux : list A) : result (list A) :=
  match jd with
  | [] => Ok Flux
  | jd_i :: rest =>
      F <- sample fuel m coeffs omega jd_i ;;
      pointwise_loop fuel m coeffs omega rest (Flux ++ [F])
  end.

(** *** The branch a sample takes, and the integration it asks for *)

Inductive regime : Type :=
| OutOfWindow
| FullOverlap
| NoOverlap
| PartialOverlap.

(** The tests of lines 208, 212 and 221, in the order the code makes them. *)
Definition regime_of (p z phase : A) : regime :=
  if (phase >? - lit_0_25) && (phase <? lit_0_25)
  then
    if z <=? #1 - p then FullOverlap
    else if z >? #1 + p then NoOverlap
    else PartialOverlap
  else OutOfWindow.

(** The bounds [(rlow, rhigh)] handed to [IntegratedI] (lines 217 and 232). *)
Definition integrator_call (p z phase : A) : option (A * A) :=
  match regime_of p z phase with
  | FullOverlap => Some (z - p, z + p)
  | PartialOverlap => Some (z - p, #1)
  | NoOverlap | OutOfWindow => None
  end.

(** The divisor of the normalisation of line 216. *)
Definition full_overlap_divisor (p z : A) : A := #4 * z * p.

End Program.

Arguments Model A : clear implicits.
Arguments Constants A : clear implicits.

(** ** The instance of IEEE 754 binary64

    The C standard does not fix [pow], [sin], [cos] and [acos] to the last
    bit: theorems about the [double] reading are stated for every
    [L : Cmath float]. *)

(** Small integers convert exactly. *)
Definition float_of_Z (z : Z) : float :=
  match z with
  | Z0 => PrimFloat.zero
  | Zpos _ => PrimFloat.of_uint63 (Uint63.of_Z z)
  | Zneg q => PrimFloat.opp (PrimFloat.of_uint63 (Uint63.of_Z (Zpos q)))
  end.

Definition float_arith : Arith float := {|
  of_Z := float_of_Z;
  dadd := PrimFloat.add;
  dsub := PrimFloat.sub;
  dmul := PrimFloat.mul;
  ddiv := PrimFloat.div;
  dopp := PrimFloat.opp;
  dleb := PrimFloat.leb;
  dltb := PrimFloat.ltb;
  dsqrt := PrimFloat.sqrt;
  dfabs := PrimFloat.abs
|}.

(** A value that is not a finite number: an infinity or NaN. *)
Definition not_finite (x : float) : Prop :=
  x = PrimFloat.infinity \/ x = PrimFloat.neg_infinity \/ x = PrimFloat.nan.

(** [lo <= x <= hi] as the C comparison operators decide it. *)
Definition float_within (lo hi x : float) : bool :=
  PrimFloat.leb lo x && PrimFloat.leb x hi.

(** ** The instance of exact real arithmetic

    The reals have no rounding, no NaN and no infinity; the step of a loop
    always moves its variable; [cos (PI / 2)] is 0; and Rocq's division is
    total, with [x / 0 = 0].  Statements in this reading are statements
    about the formulas of the program in exact arithmetic, and say so; what
    the program does on a NaN, on a zero divisor, or when a step is lost to
    rounding, is stated in the [double] reading. *)

Definition Rleb (x y : R) : bool := if Rle_dec x y then true else false.
Definition Rltb (x y : R) : bool := if Rlt_dec x y then true else false.

(** [pow(x, y)] on the reals: [x] itself for [y = 1], [0] at [x = 0] (the
    program only asks for positive exponents), [exp (y ln x)] for [x > 0].
    For [x < 0] and a fractional exponent the C function has no real value;
    no theorem below evaluates it there. *)
Definition Rpow (x y : R) : R :=
  if Req_dec_T y 1 then x
  else if Rle_dec x 0 then 0%R
  else Rpower x y.

(** The fractional part that [modf] returns: it carries the sign of its
    argument. *)
Definition Rmodf (x : R) : R :=
  if Rle_dec 0 x then frac_part x else (- frac_part (- x))%R.

Definition real_arith : Arith R := {|
  of_Z := IZR;
  dadd := Rplus;
  dsub := Rminus;
  dmul := Rmult;
  ddiv := Rdiv;
  dopp := Ropp;
  dleb := Rleb;
  dltb := Rltb;
  dsqrt := R_sqrt.sqrt;
  dfabs := Rabs
|}.

Definition real_cmath : Cmath R := {|
  dpow := Rpow;
  dsin := Rtrigo_def.sin;
  dcos := Rtrigo_def.cos;
  dacos := Ratan.acos;
  dmodf := Rmodf
|}.

(** Modelled from the spec: values for the missing constants, as the spec
    describes them (the astronomical unit, the solar and the Jupiter radius
    in metres, the seconds in a day, pi/180 and pi).  They serve the
    examples; the theorems hold for every [Constants]. *)
Definition real_constants : Constants R := {|
  AU := 149597870700%R;
  rSun := 695700000%R;
  rJup := 71492000%R;
  secondsInDay := 86400%R;
  radiansInDegree := (PI / 180)%R;
  M_PI := PI
|}.

(** A hot Jupiter seen edge-on. *)
Definition edge_on_model : Model R := {|
  a := (5 / 100)%R;
  rs := 1%R;
  rp := 1%R;
  period := 2%R;
  epoch := 2455000%R;
  i := 90%R;
  c1 := 0%R;
  c2 := 0%R;
  c3 := 0%R;
  c4 := 0%R
|}.

(** The same system seen at an inclination of 60 degrees: the planet passes
    well clear of the stellar disk. *)
Definition inclined_model : Model R := {|
  a := (5 / 100)%R;
  rs := 1%R;
  rp := 1%R;
  period := 2%R;
  epoch := 2455000%R;
  i := 60%R;
  c1 := 0%R;
  c2 := 0%R;
  c3 := 0%R;
  c4 := 0%R
|}.

(** Models in [double]: the same system with a uniform stellar disk, and
    with a limb-darkened one. *)
Section DoubleModels.

Local Existing Instance float_arith.
Local Open Scope dbl_scope.

Definition uniform_model_d : Model float := {|
  a := #5 / #100;
  rs := #1;
  rp := #1;
  period := #2;
  epoch := #2455000;
  i := #90;
  c1 := #0;
  c2 := #0;
  c3 := #0;
  c4 := #0
|}.

Definition limb_darkened_model_d : Model float := {|
  a := #5 / #100;
  rs := #1;
  rp := #1;
  period := #2;
  epoch := #2455000;
  i := #90;
  c1 := #5 / #10;
  c2 := #1 / #10;
  c3 := #2 / #10;
  c4 := #1 / #10
|}.

End DoubleModels.

(** * Facts that hold in every arithmetic *)

Section Generic.

Context {A : Type} {SA : Arith A} {CA : Cmath A}.
Local Open Scope dbl_scope.
Variable K : Constants A.

Lemma bind_Ok_inv {T U : Type} (r : result T) (k : T -> result U) (u : U) :
  (x <- r ;; k x) = Ok u -> exists v, r = Ok v /\ k v = Ok u.
Proof.
  destruct r as [v| |]; simpl; intros H; try discriminate.
  exists v; split; [reflexivity | exact H].
Qed.

(** The vector that lines 170-175 build. *)
Lemma pack_coeffs_eq (m : Model A) :
  pack_coeffs m =
  [#1 - c1 m - c2 m - c3 m - c4 m; c1 m; c2 m; c3 m; c4 m].
Proof. reflexivity. Qed.

(** The vector overloads read the entries 0 to 3 of that vector. *)
Lemma I_vec_pack (r : A) (m : Model A) :
  I_vec r (pack_coeffs m) =
  Ok (I r (#1 - c1 m - c2 m - c3 m - c4 m) (c1 m) (c2 m) (c3 m)).
Proof. reflexivity. Qed.

Lemma IntegratedI_vec_pack (fuel : nat) (d : A) (m : Model A) (rlow rhigh : A) :
  IntegratedI_vec fuel d (pack_coeffs m) rlow rhigh =
  IntegratedI fuel d (#1 - c1 m - c2 m - c3 m - c4 m) (c1 m) (c2 m) (c3 m)
    rlow rhigh.
Proof. reflexivity. Qed.

(** [calcOmega] on a vector of size 5. *)
Lemma calcOmega_5 (k0 k1 k2 k3 k4 : A) :
  calcOmega [k0; k1; k2; k3; k4] =
  Ok (#0 + k0 / (#0 + #4) + k1 / (#1 + #4) + k2 / (#2 + #4)
         + k3 / (#3 + #4) + k4 / (#4 + #4)).
Proof. reflexivity. Qed.

(** A loop that fails its test at entry returns the initial sum. *)
Lemma IntegratedI_no_iteration (fuel : nat) (d k1 k2 k3 k4 rlow rhigh : A) :
  (rlow <=? rhigh) = false ->
  IntegratedI (S fuel) d k1 k2 k3 k4 rlow rhigh = Ok #0.
Proof.
  intros Hguard. unfold IntegratedI. simpl. rewrite Hguard. reflexivity.
Qed.

(** A step that does not move the radius: when [r + dr] is [r] (a radius so
    large that the step is below half its last place) and [r <= rhigh], the
    loop of the Integrator never leaves the test. *)
Lemma IntegratedI_loop_stalls (d k1 k2 k3 k4 rhigh r : A) :
  r + d = r ->
  (r <=? rhigh) = true ->
  forall fuel sum,
    IntegratedI_loop fuel d k1 k2 k3 k4 rhigh r sum = Diverged.
Proof.
  intros Hstep Htest. induction fuel as [| fuel IH]; intros sum;
    cbn [IntegratedI_loop]; [reflexivity |].
  rewrite Htest, Hstep. apply IH.
Qed.

(** [sample_F] by the branch taken: the only calls of the integrator are
    those of [integrator_call], and the full-overlap branch divides by
    [full_overlap_divisor]. *)
Lemma sample_F_regime (fuel : nat) (coeffs : list A) (omega p z phase : A) :
  sample_F K fuel coeffs omega p z phase =
  match regime_of p z phase with
  | OutOfWindow => Ok #1
  | NoOverlap => Ok #1
  | FullOverlap =>
      integral <- IntegratedI_vec fuel dr coeffs (z - p) (z + p) ;;
      Ok (#1 - (square p * (integral * (#1 / full_overlap_divisor p z))
                / #4 / omega))
  | PartialOverlap =>
      integral <- IntegratedI_vec fuel dr coeffs (z - p) #1 ;;
      Ok (#1 - (integral * (#1 / (#1 - square (z - p)))
                * (square p * dacos ((z - #1) / p)
                   - dsqrt (square p - square (z - #1)) * (z - #1))
                / (#4 * M_PI K * omega)))
  end.
Proof.
  unfold sample_F, regime_of, full_overlap_divisor.
  destruct ((phase >? - lit_0_25) && (phase <? lit_0_25)); [| reflexivity].
  destruct (z <=? #1 - p); [reflexivity |].
  destruct (z >? #1 + p); reflexivity.
Qed.

Lemma sample_F_no_call (fuel : nat) (coeffs : list A) (omega p z phase : A) :
  integrator_call p z phase = None ->
  sample_F K fuel coeffs omega p z phase = Ok #1.
Proof.
  rewrite sample_F_regime. unfold integrator_call.
  destruct (regime_of p z phase); intros H; try discriminate; reflexivity.
Qed.


(** The loop over the timestamps appends one flux per timestamp, each the
    result of [sample] on that timestamp. *)
Lemma pointwise_loop_ok (fuel : nat) (m : Model A) (coeffs : list A)
  (omega : A) (jd : list A) :
  forall Flux out,
    pointwise_loop K fuel m coeffs omega jd Flux = Ok out ->
    exists fs,
      out = Flux ++ fs /\
      Forall2 (fun jd_i F => sample K fuel m coeffs omega jd_i = Ok F) jd fs.
Proof.
  induction jd as [| jd_i rest IH]; simpl; intros Flux out H.
  - injection H as <-. exists []. rewrite app_nil_r. split; constructor.
  - apply bind_Ok_inv in H. destruct H as (F & HF & Hrest).
    apply IH in Hrest. destruct Hrest as (fs & -> & Hfs).
    exists (F :: fs). rewrite <- app_assoc. split; [reflexivity |].
    constructor; assumption.
Qed.


Lemma Forall2_nth_error_l {X Y : Type} (P : X -> Y -> Prop)
  (xs : list X) (ys : list Y) :
  Forall2 P xs ys ->
  forall k x, nth_error xs k = Some x ->
              exists y, nth_error ys k = Some y /\ P x y.
Proof.
  induction 1 as [| x0 y0 xs ys Hxy _ IH]; intros k x Hk.
  - destruct k; discriminate.
  - destruct k as [| k]; simpl in Hk.
    + injection Hk as <-. exists y0. split; [reflexivity | assumption].
    + apply IH. assumption.
Qed.

(** *** The loop with its counter, against the point-wise map *)

Lemma skipn_nth_error {X : Type} (l : list X) :
  forall n x, nth_error l n = Some x -> skipn n l = x :: skipn (S n) l.
Proof.
  induction l as [| y l IH]; intros [| n] x H; simpl in H; try discriminate.
  - injection H as <-. reflexivity.
  - apply IH in H. exact H.
Qed.

Lemma uint_succ_small (i : nat) :
  (Z.of_nat (S i) < 2 ^ 32)%Z -> uint_succ (Z.of_nat i) = Z.of_nat (S i).
Proof.
  intros H. unfold uint_succ. rewrite Z.mod_small; lia.
Qed.

Lemma uint_succ_range (i : Z) : (0 <= uint_succ i < 2 ^ 32)%Z.
Proof. unfold uint_succ. apply Z.mod_pos_bound. lia. Qed.

(** With fewer than [2^32] timestamps the counter never wraps, and the loop
    from index [i] is the point-wise map over the timestamps from [i] on. *)
Lemma GenerateSynthetic_loop_skipn (fuel : nat) (m : Model A)
  (coeffs : list A) (omega : A) (jd : list A) :
  (Z.of_nat (length jd) < 2 ^ 32)%Z ->
  forall steps i Flux,
    (i <= length jd)%nat ->
    (length jd - i < steps)%nat ->
    GenerateSynthetic_loop K steps fuel m coeffs omega jd (Z.of_nat i) Flux =
    pointwise_loop K fuel m coeffs omega (skipn i jd) Flux.
Proof.
  intros Hsize. induction steps as [| steps IH]; intros i Flux Hi Hsteps;
    [lia |].
  cbn [GenerateSynthetic_loop].
  destruct (Z.ltb (Z.of_nat i) (Z.of_nat (length jd))) eqn:E.
  - apply Z.ltb_lt in E.
    destruct (nth_error jd i) as [x |] eqn:Ex;
      [| apply nth_error_None in Ex; lia].
    rewrite Nat2Z.id. unfold vec_at. rewrite Ex. cbn [bind].
    rewrite (@skipn_nth_error _ jd i x Ex). cbn [pointwise_loop].
    destruct (sample K fuel m coeffs omega x) as [F | |]; cbn [bind];
      [| reflexivity | reflexivity].
    rewrite uint_succ_small by lia. apply IH; lia.
  - apply Z.ltb_ge in E.
    assert (i = length jd) as -> by lia.
    rewrite skipn_all. reflexivity.
Qed.

(** With [2^32] timestamps or more the counter wraps before it reaches
    [jd.size()]: the loop never returns. *)
Lemma GenerateSynthetic_loop_wraps (fuel : nat) (m : Model A)
  (coeffs : list A) (omega : A) (jd : list A) :
  (2 ^ 32 <= Z.of_nat (length jd))%Z ->
  forall steps i Flux out,
    (0 <= i < 2 ^ 32)%Z ->
    GenerateSynthetic_loop K steps fuel m coeffs omega jd i Flux <> Ok out.
Proof.
  intros Hsize. induction steps as [| steps IH]; intros i Flux out Hi;
    cbn [GenerateSynthetic_loop]; [discriminate |].
  destruct (Z.ltb i (Z.of_nat (length jd))) eqn:E;
    [| apply Z.ltb_ge in E; lia].
  destruct (vec_at jd (Z.to_nat i)) as [x | |]; cbn [bind];
    [| discriminate | discriminate].
  destruct (sample K fuel m coeffs omega x) as [F | |]; cbn [bind];
    [| discriminate | discriminate].
  apply IH. apply uint_succ_range.
Qed.

(** [GenerateSynthetic] on fewer than [2^32] timestamps is the point-wise
    map; on more it does not return. *)
Lemma GenerateSynthetic_pointwise (fuel : nat) (m : Model A) (jd : list A) :
  (Z.of_nat (length jd) < 2 ^ 32)%Z ->
  GenerateSynthetic K fuel jd m =
  (omega <- calcOmega (pack_coeffs m) ;;
   pointwise_loop K fuel m (pack_coeffs m) omega jd []).
Proof.
  intros Hsize. unfold GenerateSynthetic.
  destruct (calcOmega (pack_coeffs m)) as [omega | |]; cbn [bind];
    [| reflexivity | reflexivity].
  apply (@GenerateSynthetic_loop_skipn fuel m (pack_coeffs m) omega jd Hsize
           (S (length jd)) 0 []); lia.
Qed.

Lemma GenerateSynthetic_returns_size (fuel : nat) (m : Model A)
  (jd out : list A) :
  GenerateSynthetic K fuel jd m = Ok out ->
  (Z.of_nat (length jd) < 2 ^ 32)%Z.
Proof.
  intros H. destruct (Z_lt_le_dec (Z.of_nat (length jd)) (2 ^ 32))
    as [Hlt | Hge]; [exact Hlt | exfalso].
  unfold GenerateSynthetic in H.
  apply bind_Ok_inv in H. destruct H as (omega & _ & Hloop).
  revert Hloop. apply GenerateSynthetic_loop_wraps; [exact Hge | lia].
Qed.


(** A successful run, timestamp by timestamp. *)
Lemma GenerateSynthetic_ok (fuel : nat) (m : Model A) (jd out : list A) :
  GenerateSynthetic K fuel jd m = Ok out ->
  exists omega,
    calcOmega (pack_coeffs m) = Ok omega /\
    Forall2
      (fun jd_i F => sample K fuel m (pack_coeffs m) omega jd_i = Ok F)
      jd out.
Proof.
  intros H.
  pose proof (@GenerateSynthetic_returns_size fuel m jd out H) as Hsize.
  rewrite (@GenerateSynthetic_pointwise fuel m jd Hsize) in H.
  apply bind_Ok_inv in H. destruct H as (omega & Homega & Hloop).
  apply pointwise_loop_ok in Hloop.
  destruct Hloop as (fs & -> & Hfs).
  exists omega. split; assumption.
Qed.

(** Two sequences of timestamps with equal samples at equal indices. *)
Lemma Forall2_nth_error_both {X Y : Type} (P : X -> Y -> Prop)
  (xs : list X) (ys : list Y) :
  Forall2 P xs ys ->
  forall k,
    (nth_error xs k = None /\ nth_error ys k = None) \/
    (exists x y, nth_error xs k = Some x /\ nth_error ys k = Some y /\ P x y).
Proof.
  induction 1 as [| x0 y0 xs ys Hxy _ IH]; intros k.
  - left. destruct k; split; reflexivity.
  - destruct k as [| k]; [| apply IH].
    right. exists x0, y0. split; [reflexivity | split; [reflexivity | exact Hxy]].
Qed.

(** Timestamps with equal samples give equal runs of the loop. *)
Lemma GenerateSynthetic_loop_ext (fuel : nat) (m : Model A)
  (coeffs : list A) (omega : A) (jd jd' : list A) :
  Forall2
    (fun x y =>
       sample K fuel m coeffs omega x = sample K fuel m coeffs omega y)
    jd jd' ->
  forall steps i Flux,
    GenerateSynthetic_loop K steps fuel m coeffs omega jd i Flux =
    GenerateSynthetic_loop K steps fuel m coeffs omega jd' i Flux.
Proof.
  intros Hall. pose proof (Forall2_length Hall) as Hlen.
  induction steps as [| steps IH]; intros i Flux;
    cbn [GenerateSynthetic_loop]; [reflexivity |].
  rewrite <- Hlen.
  destruct (Z.ltb i (Z.of_nat (length jd))); [| reflexivity].
  unfold vec_at.
  destruct (Forall2_nth_error_both Hall (Z.to_nat i))
    as [[-> ->] | (x & y & -> & -> & Hxy)]; [reflexivity |].
  cbn [bind]. rewrite Hxy.
  destruct (sample K fuel m coeffs omega y); cbn [bind];
    [apply IH | reflexivity | reflexivity].
Qed.


End Generic.

(** * The [double] reading *)

Section DoubleFacts.

Local Existing Instance float_arith.
Local Open Scope dbl_scope.

(** The quotients that stand for the decimal literals are the literals. *)
Lemma literals_double :
  (lit_0_001 : float) = 0x1.0624dd2f1a9fcp-10%float /\
  (lit_0_5 : float) = 0.5%float /\
  (lit_0_25 : float) = 0.25%float.
Proof. repeat split; reflexivity. Qed.

(** The coefficients of [limb_darkened_model_d] are the [double]s nearest
    to 0.5, 0.1, 0.2 and 0.1. *)
Lemma limb_darkened_coefficients :
  let m := limb_darkened_model_d in
  c1 m = 0.5%float /\
  c2 m = 0x1.999999999999ap-4%float /\
  c3 m = 0x1.999999999999ap-3%float /\
  c4 m = 0x1.999999999999ap-4%float.
Proof. repeat split; reflexivity. Qed.

Lemma Prim2SF_infinity : Prim2SF PrimFloat.infinity = S754_infinity false.
Proof. reflexivity. Qed.

(** A product with an infinity is an infinity or NaN. *)
Lemma mul_infinity_not_finite (x : float) :
  not_finite (PrimFloat.mul x PrimFloat.infinity).
Proof.
  unfold not_finite.
  rewrite <- (SF2Prim_Prim2SF (PrimFloat.mul x PrimFloat.infinity)).
  rewrite mul_spec, Prim2SF_infinity.
  destruct (Prim2SF x) as [s | s | | s mx ex]; try destruct s;
    cbn [SF64mul SFmul xorb];
    first [ left; reflexivity
          | right; left; reflexivity
          | right; right; reflexivity ].
Qed.

(** [x < y] excludes [y <= x]. *)
Lemma SFcompare_Lt_Gt (x y : spec_float) :
  SFcompare x y = Some Lt -> SFcompare y x = Some Gt.
Proof.
  destruct x as [sx | sx | | sx mx ex], y as [sy | sy | | sy my ey];
    simpl; try discriminate;
    try (destruct sx; (discriminate || reflexivity));
    try (destruct sy; (discriminate || reflexivity));
    try (destruct sx, sy; (discriminate || reflexivity)).
  assert (Hm : Pos.compare_cont Eq my mx = CompOpp (Pos.compare_cont Eq mx my))
    by (symmetry; apply (Pos.compare_cont_antisym mx my Eq)).
  rewrite (Z.compare_antisym ex ey), Hm.
  destruct sx, sy; try discriminate; try reflexivity;
    destruct (ex ?= ey)%Z; simpl; try discriminate; try reflexivity;
    destruct (Pos.compare_cont Eq mx my); simpl;
    try discriminate; reflexivity.
Qed.

Lemma ltb_not_leb (x y : float) :
  PrimFloat.ltb x y = true -> PrimFloat.leb y x = false.
Proof.
  rewrite ltb_spec, leb_spec. unfold SFltb, SFleb.
  destruct (SFcompare (Prim2SF x) (Prim2SF y)) as [[ | | ] |] eqn:E;
    try discriminate.
  intros _. rewrite (SFcompare_Lt_Gt _ _ E). reflexivity.
Qed.

Lemma Prim2SF_zero : Prim2SF PrimFloat.zero = S754_zero false.
Proof. reflexivity. Qed.

Lemma Prim2SF_neg_infinity :
  Prim2SF PrimFloat.neg_infinity = S754_infinity true.
Proof. reflexivity. Qed.

Lemma Prim2SF_nan : Prim2SF PrimFloat.nan = S754_nan.
Proof. reflexivity. Qed.

(** A product with 0 is a zero or NaN. *)
Lemma mul_zero_cases (y : float) :
  PrimFloat.mul y PrimFloat.zero = PrimFloat.zero \/
  PrimFloat.mul y PrimFloat.zero = PrimFloat.neg_zero \/
  PrimFloat.mul y PrimFloat.zero = PrimFloat.nan.
Proof.
  rewrite <- (SF2Prim_Prim2SF (PrimFloat.mul y PrimFloat.zero)).
  rewrite mul_spec, Prim2SF_zero.
  destruct (Prim2SF y) as [s | s | | s my ey]; try destruct s;
    cbn [SF64mul SFmul xorb];
    first [ left; reflexivity
          | right; left; reflexivity
          | right; right; reflexivity ].
Qed.

(** A product with a value that is not finite is not finite. *)
Lemma mul_not_finite (x y : float) :
  not_finite y -> not_finite (PrimFloat.mul x y).
Proof.
  intros [-> | [-> | ->]].
  - apply mul_infinity_not_finite.
  - unfold not_finite.
    rewrite <- (SF2Prim_Prim2SF (PrimFloat.mul x PrimFloat.neg_infinity)).
    rewrite mul_spec, Prim2SF_neg_infinity.
    destruct (Prim2SF x) as [s | s | | s mx ex]; try destruct s;
      cbn [SF64mul SFmul xorb];
      first [ left; reflexivity
            | right; left; reflexivity
            | right; right; reflexivity ].
  - unfold not_finite. right; right.
    rewrite <- (SF2Prim_Prim2SF (PrimFloat.mul x PrimFloat.nan)).
    rewrite mul_spec, Prim2SF_nan.
    destruct (Prim2SF x) as [s | s | | s mx ex]; reflexivity.
Qed.

(** NaN divided by anything is NaN. *)
Lemma div_nan_l (y : float) : PrimFloat.div PrimFloat.nan y = PrimFloat.nan.
Proof.
  rewrite <- (SF2Prim_Prim2SF (PrimFloat.div PrimFloat.nan y)).
  rewrite div_spec, Prim2SF_nan. reflexivity.
Qed.

(** The three values that are not finite, in the specification. *)
Lemma not_finite_cases (x : float) :
  not_finite x ->
  Prim2SF x = S754_infinity false \/ Prim2SF x = S754_infinity true \/
  Prim2SF x = S754_nan.
Proof.
  intros [-> | [-> | ->]];
    [left | right; left | right; right]; reflexivity.
Qed.

(** A value that is not finite stays so when it is multiplied, divided, or
    subtracted from 1. *)
Lemma mul_not_finite_l (x y : float) :
  not_finite x -> not_finite (PrimFloat.mul x y).
Proof.
  intros Hx. unfold not_finite.
  rewrite <- (SF2Prim_Prim2SF (PrimFloat.mul x y)), mul_spec.
  destruct (not_finite_cases Hx) as [-> | [-> | ->]];
    destruct (Prim2SF y) as [s | s | | s my ey]; try destruct s;
    cbn [SF64mul SFmul xorb];
    first [ left; reflexivity
          | right; left; reflexivity
          | right; right; reflexivity ].
Qed.

Lemma div_not_finite_l (x y : float) :
  not_finite x -> not_finite (PrimFloat.div x y).
Proof.
  intros Hx. unfold not_finite.
  rewrite <- (SF2Prim_Prim2SF (PrimFloat.div x y)), div_spec.
  destruct (not_finite_cases Hx) as [-> | [-> | ->]];
    destruct (Prim2SF y) as [s | s | | s my ey]; try destruct s;
    cbn [SF64div SFdiv xorb];
    first [ left; reflexivity
          | right; left; reflexivity
          | right; right; reflexivity ].
Qed.

Lemma one_sub_not_finite (x : float) :
  not_finite x -> not_finite (PrimFloat.sub PrimFloat.one x).
Proof.
  intros [-> | [-> | ->]]; vm_compute;
    first [ left; reflexivity
          | right; left; reflexivity
          | right; right; reflexivity ].
Qed.



(** Comparisons with NaN are false, and NaN minus anything is NaN. *)
Lemma leb_nan_l (x : float) : PrimFloat.leb PrimFloat.nan x = false.
Proof. rewrite leb_spec, Prim2SF_nan. reflexivity. Qed.

Lemma ltb_nan_r (x : float) : PrimFloat.ltb x PrimFloat.nan = false.
Proof.
  rewrite ltb_spec, Prim2SF_nan.
  destruct (Prim2SF x) as [s | s | | s m e]; reflexivity.
Qed.

Lemma sub_nan_l (x : float) : PrimFloat.sub PrimFloat.nan x = PrimFloat.nan.
Proof.
  rewrite <- (SF2Prim_Prim2SF (PrimFloat.sub PrimFloat.nan x)).
  rewrite sub_spec, Prim2SF_nan. reflexivity.
Qed.

(** A NaN separation fails the tests of lines 212 and 221 alike: inside the
    window the partial-overlap call is made, with the bounds (NaN, 1). *)
Lemma integrator_call_nan_separation (p phase : float) :
  (phase >? - lit_0_25) && (phase <? lit_0_25) = true ->
  integrator_call p PrimFloat.nan phase = Some (PrimFloat.nan, #1) /\
  PrimFloat.leb PrimFloat.nan #1 = false.
Proof.
  intros Hgate. split; [| reflexivity].
  unfold integrator_call, regime_of. rewrite Hgate.
  cbn [dleb dltb dsub dadd float_arith].
  rewrite leb_nan_l, ltb_nan_r, sub_nan_l. reflexivity.
Qed.

(** In [double] the Integrator does not return on every call: from
    [rlow = -1e17] the step 0.001 is lost in the rounding of [r + dr]. *)
Lemma IntegratedI_stalls_at_huge_radius (L : Cmath float) (fuel : nat)
  (k1 k2 k3 k4 : float) :
  IntegratedI fuel dr k1 k2 k3 k4 (#0 - #100000000000000000) #1 = Diverged.
Proof.
  unfold IntegratedI. apply IntegratedI_loop_stalls; reflexivity.
Qed.

(** So a planet of radius ratio [1e17] has no flux at mid-window, whatever
    the iteration budget is. *)
Lemma sample_F_stalls_for_huge_planet (L : Cmath float)
  (K : Constants float) (fuel : nat) (k0 k1 k2 k3 : float)
  (rest : list float) (omega : float) :
  sample_F K fuel (k0 :: k1 :: k2 :: k3 :: rest) omega
    #100000000000000000 #0 #0 = Diverged.
Proof.
  rewrite sample_F_regime.
  replace (regime_of #100000000000000000 #0 #0) with (@PartialOverlap)
    by (vm_compute; reflexivity).
  unfold IntegratedI_vec. cbn [vec_at nth_error bind].
  rewrite IntegratedI_stalls_at_huge_radius. reflexivity.
Qed.

End DoubleFacts.

(** ** Claims settled in the [double] reading *)

Section DoubleClaims.

Local Existing Instance float_arith.
Local Open Scope dbl_scope.

(** The flux of the full-overlap branch at [p = 0.1] and [omega = 0.25]
    once the normalisation is infinite, whatever the integral is. *)
Lemma full_overlap_flux_infinite_norm (x : float) :
  let F := #1 - (square (#1 / #10) * (x * PrimFloat.infinity) / #4
                 / lit_0_25) in
  not_finite F /\ float_within (#988 / #1000) (#992 / #1000) F = false.
Proof.
  destruct (mul_infinity_not_finite x) as [H | [H | H]];
    cbv zeta; cbn [dmul float_arith]; rewrite H; vm_compute;
    (split; [| reflexivity]).
  - right; left; reflexivity.
  - left; reflexivity.
  - right; right; reflexivity.
Qed.

(** C3: a uniform disk (all four coefficients 0, so [coeffs = [1;0;0;0;0]]
    and [omega = 1/4]) at mid-transit, [z = 0] and [p = 0.1], in the gate.
    The full-overlap branch is taken, its divisor [4*z*p] is 0, the
    normalisation is [+infinity], and the flux is an infinity or NaN: it is
    not within 0.002 of 0.99.  This holds for every C library. *)
Theorem uniform_disk_mid_transit_flux (L : Cmath float) (K : Constants float) :
  pack_coeffs uniform_model_d = [#1; #0; #0; #0; #0] /\
  calcOmega (pack_coeffs uniform_model_d) = Ok lit_0_25 /\
  regime_of (#1 / #10) #0 #0 = FullOverlap /\
  #1 / full_overlap_divisor (#1 / #10) #0 = PrimFloat.infinity /\
  exists F,
    sample_F K 300 (pack_coeffs uniform_model_d) lit_0_25 (#1 / #10) #0 #0
      = Ok F /\
    not_finite F /\
    float_within (#988 / #1000) (#992 / #1000) F = false.
Proof.
  split; [reflexivity |]. split; [reflexivity |].
  split; [reflexivity |]. split; [reflexivity |].
  rewrite sample_F_regime.
  replace (regime_of (#1 / #10) #0 #0) with (@FullOverlap)
    by (vm_compute; reflexivity).
  assert (Hint : exists x,
             IntegratedI_vec 300 dr (pack_coeffs uniform_model_d)
               (#0 - #1 / #10) (#0 + #1 / #10) = Ok x)
    by (eexists; vm_compute; reflexivity).
  destruct Hint as (x & Hx). rewrite Hx. cbn [bind].
  replace (#1 / full_overlap_divisor (#1 / #10) #0)
    with PrimFloat.infinity by (vm_compute; reflexivity).
  eexists. split; [reflexivity |].
  exact (full_overlap_flux_infinite_norm x).
Qed.

(** C4 (amended): with [rhigh < rlow] the test [r <= rhigh] fails at entry,
    the body of the loop never runs, and the Integrator returns the initial
    sum 0, which is not NaN. *)
Theorem IntegratedI_reversed_bounds (L : Cmath float) (fuel : nat)
  (d k1 k2 k3 k4 k5 rlow rhigh : float) :
  PrimFloat.ltb rhigh rlow = true ->
  IntegratedI (S fuel) d k1 k2 k3 k4 rlow rhigh = Ok #0 /\
  IntegratedI_vec (S fuel) d [k1; k2; k3; k4; k5] rlow rhigh = Ok #0 /\
  PrimFloat.is_nan #0 = false.
Proof.
  intros Hlt. apply ltb_not_leb in Hlt.
  split; [| split]; [| | reflexivity].
  - apply IntegratedI_no_iteration. exact Hlt.
  - unfold IntegratedI_vec. cbn [vec_at nth_error bind].
    apply IntegratedI_no_iteration. exact Hlt.
Qed.

(** The bounds [rlow = 1], [rhigh = 0] with the step of the program. *)
Lemma IntegratedI_reversed_bounds_witness :
  PrimFloat.ltb #0 #1 = true /\
  forall L : Cmath float,
    IntegratedI (S 0) dr #1 #0 #0 #0 #1 #0 = Ok #0 /\
    IntegratedI_vec (S 0) dr [#1; #0; #0; #0; #0] #1 #0 = Ok #0 /\
    PrimFloat.is_nan #0 = false.
Proof.
  split; [reflexivity |].
  intros L.
  apply (@IntegratedI_reversed_bounds L 0 dr #1 #0 #0 #0 #0 #1 #0).
  reflexivity.
Defined.

(** C4, as stated, fails: the Integrator called on the program's own
    coefficient vector of a uniform disk with [rlow = 1 > rhigh = 0]
    returns 0, a number. *)
Lemma IntegratedI_reversed_bounds_not_nan :
  PrimFloat.ltb #0 #1 = true /\
  (forall L : Cmath float,
     IntegratedI_vec 300 dr (pack_coeffs uniform_model_d) #1 #0 = Ok #0) /\
  PrimFloat.is_nan #0 = false.
Proof. repeat split. Qed.

(** C7, as stated, fails in [double]: for the coefficients
    (0.5, 0.1, 0.2, 0.1) the sum [coeffs[0] + c1 + c2 + c3 + c4] is the
    [double] just below 1. *)
Lemma coefficient_sum_rounds_below_one :
  let m := limb_darkened_model_d in
  let coeffs := pack_coeffs m in
  let total := nth 0 coeffs #0 + c1 m + c2 m + c3 m + c4 m in
  total = 0x1.fffffffffffffp-1%float /\
  PrimFloat.eqb total #1 = false /\
  PrimFloat.ltb total #1 = true.
Proof. repeat split. Qed.




End DoubleClaims.

(** * The reading in exact real arithmetic *)

(** Unfolds the operations of the real instance. *)
Ltac real_ops :=
  cbn [of_Z dadd dsub dmul ddiv dopp dleb dltb dsqrt dfabs
       dpow dsin dcos dacos dmodf real_arith real_cmath] in *.

Section RealFacts.

Local Existing Instance real_arith.
Local Existing Instance real_cmath.
Local Open Scope R_scope.

Lemma Rleb_true (x y : R) : Rleb x y = true <-> x <= y.
Proof. unfold Rleb. destruct (Rle_dec x y); split; intros; easy. Qed.

Lemma Rleb_false (x y : R) : Rleb x y = false <-> y < x.
Proof.
  unfold Rleb. destruct (Rle_dec x y); split; intros; try easy; lra.
Qed.

Lemma Rltb_true (x y : R) : Rltb x y = true <-> x < y.
Proof. unfold Rltb. destruct (Rlt_dec x y); split; intros; easy. Qed.

Lemma Rltb_false (x y : R) : Rltb x y = false <-> y <= x.
Proof.
  unfold Rltb. destruct (Rlt_dec x y); split; intros; try easy; lra.
Qed.

(** The gate of line 208 over the reals. *)
Lemma gate_real (phase : R) :
  (((phase >? - lit_0_25) && (phase <? lit_0_25))%D = true) <->
  - (1 / 4) < phase < 1 / 4.
Proof.
  unfold lit_0_25. cbn [of_Z dopp ddiv dltb real_arith].
  rewrite andb_true_iff, !Rltb_true. tauto.
Qed.

(** The branch taken, by the order of [z], [p] and the phase. *)
Lemma regime_of_real (p z phase : R) :
  regime_of p z phase =
  if Rlt_dec (- (1 / 4)) phase then
    if Rlt_dec phase (1 / 4) then
      if Rle_dec z (1 - p) then FullOverlap
      else if Rlt_dec (1 + p) z then NoOverlap
      else PartialOverlap
    else OutOfWindow
  else OutOfWindow.
Proof.
  unfold regime_of, lit_0_25.
  cbn [of_Z dopp ddiv dadd dsub dltb dleb real_arith].
  unfold Rltb, Rleb.
  destruct (Rlt_dec (- (1 / 4)) phase), (Rlt_dec phase (1 / 4)),
    (Rle_dec z (1 - p)), (Rlt_dec (1 + p) z); reflexivity.
Qed.

(** [modf] is odd. *)
Lemma Rmodf_opp (x : R) : Rmodf (- x) = - Rmodf x.
Proof.
  unfold Rmodf.
  destruct (Rle_dec 0 (- x)) as [Hn | Hn], (Rle_dec 0 x) as [Hp | Hp].
  - assert (x = 0) as -> by lra.
    rewrite Ropp_0, fp_R0. lra.
  - lra.
  - rewrite Ropp_involutive. reflexivity.
  - lra.
Qed.

Lemma Rmodf_0 : Rmodf 0 = 0.
Proof.
  unfold Rmodf. destruct (Rle_dec 0 0); [apply fp_R0 | lra].
Qed.

Lemma Rmodf_half : Rmodf (1 / 2) = 1 / 2.
Proof.
  unfold Rmodf. destruct (Rle_dec 0 (1 / 2)); [| lra].
  destruct (Int_part_frac_part_spec (1 / 2) 0 (1 / 2)) as [_ H];
    [lra | lra | symmetry; exact H].
Qed.

(** The loop of the Integrator ends: [n] steps of [d > 0] pass [rhigh]. *)
Lemma IntegratedI_loop_terminates (n : nat) :
  forall d k1 k2 k3 k4 rhigh r sum : R,
    0 < d ->
    rhigh - r < INR n * d ->
    exists v, IntegratedI_loop (S n) d k1 k2 k3 k4 rhigh r sum = Ok v.
Proof.
  induction n as [| n IH]; intros d k1 k2 k3 k4 rhigh r sum Hd Hn;
    cbn [IntegratedI_loop]; cbn [dleb real_arith];
    destruct (Rleb r rhigh) eqn:E.
  - apply Rleb_true in E. simpl in Hn. lra.
  - eexists; reflexivity.
  - apply IH; [exact Hd |].
    rewrite S_INR in Hn. cbn [dadd real_arith]. lra.
  - eexists; reflexivity.
Qed.

(** A number of steps that passes any interval of length [len]. *)
Lemma steps_exist (len : R) : exists n : nat, len < INR n * (1 / 1000).
Proof.
  exists (Z.to_nat (up (len * 1000))).
  destruct (archimed (len * 1000)) as [Hup _].
  rewrite INR_IZR_INZ.
  assert (IZR (up (len * 1000)) <= IZR (Z.of_nat (Z.to_nat (up (len * 1000))))).
  { apply IZR_le. lia. }
  lra.
Qed.

Lemma dr_real : (dr : R) = 1 / 1000.
Proof. reflexivity. Qed.

(** Each sample is computed: a budget that depends on [p] alone is enough
    for both calls of the Integrator. *)
Lemma sample_F_total (K : Constants R) (m : Model R) (p : R) :
  exists fuel : nat,
    forall omega z phase,
      exists F, sample_F K fuel (pack_coeffs m) omega p z phase = Ok F.
Proof.
  destruct (steps_exist (2 * p)) as (n & Hn).
  exists (S n). intros omega z phase.
  rewrite sample_F_regime, regime_of_real.
  destruct (Rlt_dec (- (1 / 4)) phase); [| eexists; reflexivity].
  destruct (Rlt_dec phase (1 / 4)); [| eexists; reflexivity].
  destruct (Rle_dec z (1 - p)) as [Hfull | Hfull].
  - rewrite IntegratedI_vec_pack. unfold IntegratedI.
    edestruct (IntegratedI_loop_terminates n) as (v & Hv);
      [| | rewrite Hv; cbn [bind]; eexists; reflexivity].
    + rewrite dr_real. lra.
    + rewrite dr_real. cbn [dadd dsub real_arith]. lra.
  - destruct (Rlt_dec (1 + p) z); [eexists; reflexivity |].
    rewrite IntegratedI_vec_pack. unfold IntegratedI.
    edestruct (IntegratedI_loop_terminates n) as (v & Hv);
      [| | rewrite Hv; cbn [bind]; eexists; reflexivity].
    + rewrite dr_real. lra.
    + rewrite dr_real. cbn [dadd dsub of_Z real_arith]. lra.
Qed.

(** *** Geometry and intensity at particular inputs *)

(** The intensity that the Integrator computes for a uniform disk: the
    vector [[1;0;0;0;0]] is read as [c1 = 1], giving [(1 - r^2)^(1/4)]. *)
Lemma I_shifted_uniform (r : R) :
  r * r < 1 ->
  I r 1 0 0 0 = Rpower (1 - r * r) (1 / 4).
Proof.
  intros Hr. unfold I, square. real_ops.
  assert (Hpow : Rpow (1 - r * r) (1 / 4) = Rpower (1 - r * r) (1 / 4)).
  { unfold Rpow.
    destruct (Req_dec_T (1 / 4) 1) as [E | _]; [lra |].
    destruct (Rle_dec (1 - r * r) 0) as [E | _]; [lra | reflexivity]. }
  rewrite Hpow. ring.
Qed.

Lemma seconds_since_epoch_at_epoch (K : Constants R) (m : Model R) :
  seconds_since_epoch K m (epoch m) = 0.
Proof. unfold seconds_since_epoch. real_ops. ring. Qed.

(** Seen edge-on, the separation is the distance times [|sin|]. *)
Lemma separation_edge_on (K : Constants R) (m : Model R) (t : R) :
  i m = 90 ->
  radiansInDegree K = PI / 180 ->
  separation K m t = normalisedDistance K m * Rabs (sin (angFreq K m * t)).
Proof.
  intros Hi Hrad. unfold separation, cosi, square. real_ops.
  rewrite Hi, Hrad.
  replace (90 * (PI / 180)) with (PI / 2) by field.
  rewrite cos_PI2.
  replace (sin (angFreq K m * t) * sin (angFreq K m * t)
           + 0 * cos (angFreq K m * t) * (0 * cos (angFreq K m * t)))
    with (Rsqr (sin (angFreq K m * t))) by (unfold Rsqr; ring).
  rewrite sqrt_Rsqr_abs. reflexivity.
Qed.

Lemma folded_phase_at_0 (K : Constants R) (m : Model R) :
  folded_phase K m 0 = 0.
Proof.
  unfold folded_phase, lit_0_5. real_ops.
  replace (0 / (period m * secondsInDay K)) with 0 by (unfold Rdiv; ring).
  rewrite Rmodf_0, Rabs_R0.
  destruct (Rltb (1 / 2) 0) eqn:E; [| reflexivity].
  apply Rltb_true in E. lra.
Qed.

(** The separation and the folded phase are even in the time since epoch. *)
Lemma separation_even (K : Constants R) (m : Model R) (t : R) :
  separation K m (- t) = separation K m t.
Proof.
  unfold separation, square. real_ops.
  replace (angFreq K m * - t) with (- (angFreq K m * t)) by ring.
  rewrite sin_neg, cos_neg. f_equal. f_equal. ring.
Qed.

Lemma folded_phase_even (K : Constants R) (m : Model R) (t : R) :
  folded_phase K m (- t) = folded_phase K m t.
Proof.
  unfold folded_phase. real_ops.
  replace (- t / (period m * secondsInDay K))
    with (- (t / (period m * secondsInDay K))) by (unfold Rdiv; ring).
  rewrite Rmodf_opp, Rabs_Ropp. reflexivity.
Qed.

(** At the epoch, seen edge-on: the planet is in front of the centre of the
    disk and the folded phase is 0. *)
Lemma edge_on_mid_transit (K : Constants R) (m : Model R) :
  i m = 90 ->
  radiansInDegree K = PI / 180 ->
  separation K m (seconds_since_epoch K m (epoch m)) = 0 /\
  folded_phase K m (seconds_since_epoch K m (epoch m)) = 0.
Proof.
  intros Hi Hrad. rewrite seconds_since_epoch_at_epoch. split.
  - rewrite (separation_edge_on K m 0 Hi Hrad).
    rewrite Rmult_0_r, sin_0, Rabs_R0. ring.
  - apply folded_phase_at_0.
Qed.

(** The radius ratio of [edge_on_model]: about 0.103. *)
Lemma edge_on_ratio_p_value :
  ratio_p real_constants edge_on_model = 1 * 71492000 / (1 * 695700000).
Proof. reflexivity. Qed.

(** A twelfth of a period after mid-transit the planet of [edge_on_model]
    is half the orbital distance away from the centre of the disk. *)
Lemma edge_on_separation_twelfth :
  separation real_constants edge_on_model
    (seconds_since_epoch real_constants edge_on_model (2455000 + 1 / 6))
  = 5 / 100 * 149597870700 / (1 * 695700000) * (1 / 2).
Proof.
  rewrite (@separation_edge_on real_constants edge_on_model _
             eq_refl eq_refl).
  unfold normalisedDistance, angFreq, seconds_since_epoch. real_ops.
  cbn [a rs AU rSun period epoch secondsInDay M_PI
       real_constants edge_on_model].
  replace (2 * PI / (2 * 86400) * ((2455000 + 1 / 6 - 2455000) * 86400))
    with (PI / 6) by field.
  rewrite sin_PI6, Rabs_pos_eq by lra. reflexivity.
Qed.

(** Half a period after mid-transit the folded phase of [edge_on_model] is
    1/2, outside the window. *)
Lemma edge_on_phase_half_period :
  folded_phase real_constants edge_on_model
    (seconds_since_epoch real_constants edge_on_model (2455000 + 1))
  = 1 / 2.
Proof.
  unfold folded_phase, seconds_since_epoch, lit_0_5. real_ops.
  cbn [period epoch secondsInDay real_constants edge_on_model].
  replace ((2455000 + 1 - 2455000) * 86400 / (2 * 86400)) with (1 / 2)
    by field.
  rewrite Rmodf_half, Rabs_pos_eq by lra.
  destruct (Rltb (1 / 2) (1 / 2)) eqn:E; [| reflexivity].
  apply Rltb_true in E. lra.
Qed.

End RealFacts.

(** * Claims that hold in every arithmetic *)

Section GenericClaims.

Context {A : Type} {SA : Arith A} {CA : Cmath A}.
Local Open Scope dbl_scope.
Variable K : Constants A.

(** The flux at index [k] of a run is the flux of the timestamp at index
    [k]. *)
Lemma GenerateSynthetic_nth (fuel : nat) (m : Model A) (jd out : list A)
  (k : nat) (jd_k F : A) :
  GenerateSynthetic K fuel jd m = Ok out ->
  nth_error jd k = Some jd_k ->
  (forall coeffs omega, sample K fuel m coeffs omega jd_k = Ok F) ->
  nth_error out k = Some F.
Proof.
  intros Hrun Hk HF.
  apply GenerateSynthetic_ok in Hrun. destruct Hrun as (omega & _ & Hall).
  destruct (Forall2_nth_error_l Hall k Hk) as (y & Hy & Hsample).
  rewrite HF in Hsample. injection Hsample as <-. exact Hy.
Qed.

(** C5: a timestamp whose folded phase fails the test of line 208 (it is
    not inside (-0.25, 0.25)) gets the flux 1 exactly, whatever the
    separation, the radius ratio, the coefficients and the iteration budget
    are: as the value of the loop body, and as the entry of every run that
    contains the timestamp. *)
Theorem out_of_window_flux_is_one (fuel : nat) (m : Model A) (jd_i : A) :
  let phase := folded_phase K m (seconds_since_epoch K m jd_i) in
  (phase >? - lit_0_25) && (phase <? lit_0_25) = false ->
  (forall coeffs omega, sample K fuel m coeffs omega jd_i = Ok #1) /\
  (forall jd out k,
      GenerateSynthetic K fuel jd m = Ok out ->
      nth_error jd k = Some jd_i ->
      nth_error out k = Some #1).
Proof.
  intros phase Hgate.
  assert (Hsample : forall coeffs omega,
             sample K fuel m coeffs omega jd_i = Ok #1).
  { intros coeffs omega. unfold sample, sample_F.
    fold phase. rewrite Hgate. reflexivity. }
  split; [exact Hsample |].
  intros jd out k Hrun Hk.
  exact (GenerateSynthetic_nth fuel m jd k Hrun Hk Hsample).
Qed.


End GenericClaims.

(** * Claims settled in the real reading *)

Section RealClaims.

Local Existing Instance real_arith.
Local Existing Instance real_cmath.
Local Open Scope R_scope.

(** C1, at a failing input: for the uniform disk (all four coefficients 0)
    the claim's intensity is 1 at every radius; the vector overloads, which
    the generator calls, read entries 0..3 of the vector, so
    [coeffs[0] = 1] stands for [c1]: the intensity at [r = 3/5] is
    [(16/25)^(1/4) < 1], and that is what the Integrator sums when it
    evaluates this radius. *)
Theorem intensity_reads_entries_0_to_3 :
  let m := edge_on_model in
  let wrong := Rpower (16 / 25) (1 / 4) in
  I_vec (3 / 5) (pack_coeffs m) = Ok wrong /\
  IntegratedI_vec 2 dr (pack_coeffs m) (3 / 5) (3 / 5)
    = Ok (0 + wrong * (1 / 1000) * 2 * (3 / 5)) /\
  wrong < 1 /\
  I (3 / 5) (c1 m) (c2 m) (c3 m) (c4 m) = 1.
Proof.
  cbv zeta.
  assert (Hcoeffs : pack_coeffs edge_on_model = [1; 0; 0; 0; 0]).
  { rewrite pack_coeffs_eq. real_ops. cbn [c1 c2 c3 c4 edge_on_model].
    repeat f_equal. ring. }
  assert (HI : I (3 / 5) 1 0 0 0 = Rpower (16 / 25) (1 / 4)).
  { rewrite I_shifted_uniform by lra. f_equal. lra. }
  rewrite Hcoeffs.
  split; [| split; [| split]].
  - unfold I_vec. cbn [vec_at nth_error bind]. rewrite HI. reflexivity.
  - unfold IntegratedI_vec, IntegratedI. cbn [vec_at nth_error bind].
    cbn [IntegratedI_loop]. rewrite dr_real. real_ops.
    destruct (Rleb (3 / 5) (3 / 5)) eqn:E1;
      [| apply Rleb_false in E1; lra].
    destruct (Rleb (3 / 5 + 1 / 1000) (3 / 5)) eqn:E2;
      [apply Rleb_true in E2; lra |].
    rewrite HI. reflexivity.
  - unfold Rpower.
    assert (Hln : ln (16 / 25) < ln 1) by (apply ln_increasing; lra).
    rewrite ln_1 in Hln.
    assert (Hexp : exp (1 / 4 * ln (16 / 25)) < exp 0)
      by (apply exp_increasing; lra).
    rewrite exp_0 in Hexp. exact Hexp.
  - unfold I, square. real_ops. cbn [c1 c2 c3 c4 edge_on_model]. ring.
Qed.

Section IntegratorBounds.

Local Existing Instance float_arith.

(** C2 (amended): in exact arithmetic, for a radius ratio [p >= 0], every
    call of the Integrator has [rlow <= rhigh <= 1], and its lower bound
    [z - p] is nonnegative exactly when [p <= z].  In [double], where the
    separation can be NaN, a NaN separation fails the tests of lines 212 and
    221 alike: inside the window the partial-overlap call is made with the
    bounds (NaN, 1), for which [rlow <= rhigh] is false. *)
Theorem integrator_call_bounds :
  (forall p z phase rlow rhigh : R,
      0 <= p ->
      integrator_call p z phase = Some (rlow, rhigh) ->
      rlow <= rhigh /\ rhigh <= 1 /\ (0 <= rlow <-> p <= z)) /\
  (forall p phase : float,
      ((phase >? - lit_0_25) && (phase <? lit_0_25))%D = true ->
      integrator_call p PrimFloat.nan phase
      = Some (PrimFloat.nan, PrimFloat.one) /\
      PrimFloat.leb PrimFloat.nan PrimFloat.one = false).
Proof.
  split.
  - intros p z phase rlow rhigh Hp. unfold integrator_call.
    rewrite regime_of_real.
    destruct (Rlt_dec (- (1 / 4)) phase); [| discriminate].
    destruct (Rlt_dec phase (1 / 4)); [| discriminate].
    destruct (Rle_dec z (1 - p)) as [Hfull | Hfull].
    + intros H. injection H as <- <-. real_ops. lra.
    + destruct (Rlt_dec (1 + p) z) as [Hnone | Hnone]; [discriminate |].
      intros H. injection H as <- <-. real_ops. lra.
  - intros p phase Hgate.
    exact (integrator_call_nan_separation p phase Hgate).
Qed.

(** The bounds of the call at [p = 0.1], [z = 0.5], in the window; and the
    call on a NaN separation at [p = 0.1], mid-window. *)
Lemma integrator_call_bounds_witness :
  (0 <= 1 / 10 /\
   integrator_call (1 / 10) (1 / 2) 0
   = Some (1 / 2 - 1 / 10, 1 / 2 + 1 / 10)) /\
  (1 / 2 - 1 / 10 <= 1 / 2 + 1 / 10 /\ 1 / 2 + 1 / 10 <= 1 /\
   (0 <= 1 / 2 - 1 / 10 <-> 1 / 10 <= 1 / 2)) /\
  (((PrimFloat.zero >? - lit_0_25) && (PrimFloat.zero <? lit_0_25))%D = true /\
   integrator_call (#1 / #10)%D PrimFloat.nan PrimFloat.zero
   = Some (PrimFloat.nan, PrimFloat.one) /\
   PrimFloat.leb PrimFloat.nan PrimFloat.one = false).
Proof.
  assert (Hp : 0 <= 1 / 10) by lra.
  assert (Hcall : integrator_call (1 / 10) (1 / 2) 0
                  = Some (1 / 2 - 1 / 10, 1 / 2 + 1 / 10)).
  { unfold integrator_call. rewrite regime_of_real.
    destruct (Rlt_dec (- (1 / 4)) 0); [| lra].
    destruct (Rlt_dec 0 (1 / 4)); [| lra].
    destruct (Rle_dec (1 / 2) (1 - 1 / 10)); [| lra].
    reflexivity. }
  split; [split; [exact Hp | exact Hcall] |].
  split.
  - exact (proj1 integrator_call_bounds (1 / 10) (1 / 2) 0 _ _ Hp Hcall).
  - split; [reflexivity |].
    exact (proj2 integrator_call_bounds (#1 / #10)%D PrimFloat.zero eq_refl).
Defined.

End IntegratorBounds.

(** C2, as stated, fails: at the epoch of [edge_on_model] (a central
    transit, [z = 0], [p] about 0.103) the generator takes the full-overlap
    branch and calls the Integrator with the lower bound [0 - p < 0]. *)
Lemma integrator_call_negative_lower_bound :
  let K := real_constants in
  let m := edge_on_model in
  let p := ratio_p K m in
  let t := seconds_since_epoch K m (epoch m) in
  integrator_call p (separation K m t) (folded_phase K m t)
    = Some (0 - p, 0 + p) /\
  0 - p < 0.
Proof.
  cbv zeta.
  destruct (@edge_on_mid_transit real_constants edge_on_model
              eq_refl eq_refl) as [-> ->].
  rewrite edge_on_ratio_p_value.
  split; [| lra].
  unfold integrator_call. rewrite regime_of_real.
  destruct (Rlt_dec (- (1 / 4)) 0); [| lra].
  destruct (Rlt_dec 0 (1 / 4)); [| lra].
  destruct (Rle_dec 0 (1 - 1 * 71492000 / (1 * 695700000))); [| lra].
  reflexivity.
Qed.

(** C5 at [edge_on_model], half a period after the epoch (folded phase
    1/2), in the real reading. *)
Lemma out_of_window_flux_is_one_witness :
  let K := real_constants in
  let m := edge_on_model in
  let jd_i := 2455000 + 1 in
  let phase := folded_phase K m (seconds_since_epoch K m jd_i) in
  ((phase >? - lit_0_25) && (phase <? lit_0_25))%D = false /\
  (forall coeffs omega, sample K 0 m coeffs omega jd_i = Ok 1) /\
  (forall jd out k,
      GenerateSynthetic K 0 jd m = Ok out ->
      nth_error jd k = Some jd_i ->
      nth_error out k = Some 1).
Proof.
  cbv zeta.
  assert (Hgate :
            let phase :=
              folded_phase real_constants edge_on_model
                (seconds_since_epoch real_constants edge_on_model
                   (2455000 + 1)) in
            ((phase >? - lit_0_25) && (phase <? lit_0_25))%D = false).
  { cbv zeta. rewrite edge_on_phase_half_period.
    apply not_true_is_false. rewrite gate_real. lra. }
  split; [exact Hgate |].
  exact (@out_of_window_flux_is_one R real_arith real_cmath real_constants
           0 edge_on_model (2455000 + 1) Hgate).
Defined.

(** C6: for a radius ratio [p >= 0], a timestamp whose separation has
    [z > 1 + p] gets the flux 1 exactly, whatever the phase, the
    coefficients, [omega] and the iteration budget are. *)
Theorem no_overlap_flux_is_one (K : Constants R) (fuel : nat) (m : Model R)
  (jd_i : R) :
  0 <= ratio_p K m ->
  1 + ratio_p K m < separation K m (seconds_since_epoch K m jd_i) ->
  (forall coeffs omega, sample K fuel m coeffs omega jd_i = Ok 1) /\
  (forall jd out k,
      GenerateSynthetic K fuel jd m = Ok out ->
      nth_error jd k = Some jd_i ->
      nth_error out k = Some 1).
Proof.
  intros Hp Hz.
  assert (Hsample : forall coeffs omega,
             sample K fuel m coeffs omega jd_i = Ok 1).
  { intros coeffs omega. unfold sample.
    apply (sample_F_no_call (SA:=real_arith) (CA:=real_cmath)).
    unfold integrator_call.
    rewrite regime_of_real.
    destruct (Rlt_dec _ _); [| reflexivity].
    destruct (Rlt_dec _ _); [| reflexivity].
    destruct (Rle_dec _ _); [lra |].
    destruct (Rlt_dec _ _); [reflexivity | lra]. }
  split; [exact Hsample |].
  intros jd out k Hrun Hk.
  exact (GenerateSynthetic_nth K fuel m jd k Hrun Hk Hsample).
Qed.

(** A twelfth of a period after the epoch the planet of [edge_on_model] is
    off the disk: [z] is about 5.4 and [1 + p] about 1.1. *)
Lemma no_overlap_flux_is_one_witness :
  let K := real_constants in
  let m := edge_on_model in
  let jd_i := 2455000 + 1 / 6 in
  (0 <= ratio_p K m /\
   1 + ratio_p K m < separation K m (seconds_since_epoch K m jd_i)) /\
  (forall coeffs omega, sample K 0 m coeffs omega jd_i = Ok 1) /\
  (forall jd out k,
      GenerateSynthetic K 0 jd m = Ok out ->
      nth_error jd k = Some jd_i ->
      nth_error out k = Some 1).
Proof.
  cbv zeta.
  assert (Hp : 0 <= ratio_p real_constants edge_on_model).
  { unfold ratio_p. real_ops.
    cbn [rp rs rJup rSun real_constants edge_on_model]. lra. }
  assert (Hz : 1 + ratio_p real_constants edge_on_model
               < separation real_constants edge_on_model
                   (seconds_since_epoch real_constants edge_on_model
                      (2455000 + 1 / 6))).
  { rewrite edge_on_separation_twelfth.
    unfold ratio_p. real_ops.
    cbn [rp rs rJup rSun real_constants edge_on_model]. lra. }
  split; [split; assumption |].
  exact (@no_overlap_flux_is_one real_constants 0 edge_on_model
           (2455000 + 1 / 6) Hp Hz).
Defined.

(** C7 (amended): in exact arithmetic the packed vector has size 5, keeps
    [c1..c4] at the indices 1..4, and [coeffs[0] + c1 + c2 + c3 + c4] is 1
    for every [c1..c4]. *)
Theorem coefficient_conservation_real (m : Model R) :
  let coeffs := pack_coeffs m in
  length coeffs = 5%nat /\
  nth 0 coeffs 0 = 1 - c1 m - c2 m - c3 m - c4 m /\
  (nth 1 coeffs 0 = c1 m /\ nth 2 coeffs 0 = c2 m /\
   nth 3 coeffs 0 = c3 m /\ nth 4 coeffs 0 = c4 m) /\
  (nth 0 coeffs 0 + c1 m + c2 m + c3 m + c4 m)%D = 1.
Proof.
  cbv zeta. rewrite pack_coeffs_eq. cbn [length nth]. real_ops.
  repeat split; try reflexivity. ring.
Qed.

(** C8: the flux is symmetric about the epoch.  In exact arithmetic the
    generator returns the same result on [epoch - delta] and on
    [epoch + delta], for every model, every offset and every iteration
    budget; and so on a sequence of offsets mirrored about the epoch. *)
Theorem flux_symmetric_about_epoch (K : Constants R) (fuel : nat)
  (m : Model R) :
  (forall delta,
      GenerateSynthetic K fuel [epoch m - delta] m =
      GenerateSynthetic K fuel [epoch m + delta] m) /\
  (forall deltas,
      GenerateSynthetic K fuel (map (fun d => epoch m - d) deltas) m =
      GenerateSynthetic K fuel (map (fun d => epoch m + d) deltas) m).
Proof.
  assert (Hsample : forall coeffs omega delta,
             sample K fuel m coeffs omega (epoch m - delta) =
             sample K fuel m coeffs omega (epoch m + delta)).
  { intros coeffs omega delta. unfold sample.
    replace (seconds_since_epoch K m (epoch m - delta))
      with (- seconds_since_epoch K m (epoch m + delta))
      by (unfold seconds_since_epoch; real_ops; ring).
    rewrite separation_even, folded_phase_even. reflexivity. }
  assert (Hseq : forall deltas,
             GenerateSynthetic K fuel (map (fun d => epoch m - d) deltas) m =
             GenerateSynthetic K fuel (map (fun d => epoch m + d) deltas) m).
  { intros deltas. unfold GenerateSynthetic.
    destruct (calcOmega (pack_coeffs m)) as [omega | |];
      [| reflexivity | reflexivity].
    cbn [bind]. rewrite !length_map. apply GenerateSynthetic_loop_ext.
    induction deltas as [| d deltas IH]; simpl; constructor;
      [apply Hsample | exact IH]. }
  split; [| exact Hseq].
  intros delta. exact (Hseq [delta]).
Qed.




End RealClaims.

(** * Further properties, in every arithmetic *)

Section GenericExtras.

Context {A : Type} {SA : Arith A} {CA : Cmath A}.
Local Open Scope dbl_scope.
Variable K : Constants A.

(** The loop of the Integrator never throws. *)
Lemma IntegratedI_loop_not_OutOfRange (fuel : nat) :
  forall d k1 k2 k3 k4 rhigh r sum,
    IntegratedI_loop fuel d k1 k2 k3 k4 rhigh r sum <> OutOfRange.
Proof.
  induction fuel as [| fuel IH]; intros d k1 k2 k3 k4 rhigh r sum; simpl.
  - discriminate.
  - destruct (r <=? rhigh); [apply IH | discriminate].
Qed.

(** X1: [calcOmega] reads the entries 0..4 with [at]: it throws
    [std::out_of_range] exactly on the vectors of fewer than five entries,
    and on a longer vector it sums the first five entries over 4..8 from
    left to right and ignores the rest. *)
Theorem calcOmega_out_of_range (coeffs : list A) :
  (calcOmega coeffs = OutOfRange <-> (length coeffs < 5)%nat) /\
  (forall k0 k1 k2 k3 k4 rest,
      coeffs = k0 :: k1 :: k2 :: k3 :: k4 :: rest ->
      calcOmega coeffs =
      Ok (#0 + k0 / (#0 + #4) + k1 / (#1 + #4) + k2 / (#2 + #4)
             + k3 / (#3 + #4) + k4 / (#4 + #4))).
Proof.
  split.
  - destruct coeffs as [| k0 [| k1 [| k2 [| k3 [| k4 rest]]]]];
      cbn [length]; split; intros H;
      first [ reflexivity
            | lia
            | unfold calcOmega in H;
              cbn [fold_left seq bind vec_at nth_error] in H;
              discriminate H ].
  - intros k0 k1 k2 k3 k4 rest ->. reflexivity.
Qed.

(** X2: the vector overloads of [I] and [IntegratedI] read the entries 0..3
    with [at] before anything else: on a vector of fewer than four entries
    they throw, whatever the bounds and the iteration budget are, and only
    then; on a longer vector they are the scalar overloads on the first
    four entries, and entry 4 is never read. *)
Theorem vector_overloads_out_of_range (coeffs : list A) :
  (forall r, I_vec r coeffs = OutOfRange <-> (length coeffs < 4)%nat) /\
  (forall fuel d rlow rhigh,
      IntegratedI_vec fuel d coeffs rlow rhigh = OutOfRange
      <-> (length coeffs < 4)%nat) /\
  (forall k1 k2 k3 k4 rest,
      coeffs = k1 :: k2 :: k3 :: k4 :: rest ->
      (forall r, I_vec r coeffs = Ok (I r k1 k2 k3 k4)) /\
      (forall fuel d rlow rhigh,
          IntegratedI_vec fuel d coeffs rlow rhigh =
          IntegratedI fuel d k1 k2 k3 k4 rlow rhigh)).
Proof.
  split; [| split].
  - intros r.
    destruct coeffs as [| k1 [| k2 [| k3 [| k4 rest]]]];
      cbn [length]; split; intros H;
      first [ reflexivity | lia | discriminate H ].
  - intros fuel d rlow rhigh.
    destruct coeffs as [| k1 [| k2 [| k3 [| k4 rest]]]];
      cbn [length]; split; intros H;
      first [ reflexivity | lia | idtac ].
    exfalso. revert H. unfold IntegratedI_vec, IntegratedI.
    cbn [vec_at nth_error bind]. apply IntegratedI_loop_not_OutOfRange.
  - intros k1 k2 k3 k4 rest ->. split; reflexivity.
Qed.

(** The sum that the loop accumulates over a list of radii. *)
Lemma IntegratedI_loop_fold (fuel : nat) (d k1 k2 k3 k4 rhigh : A) :
  forall r sum,
    IntegratedI_loop fuel d k1 k2 k3 k4 rhigh r sum =
    match IntegratedI_radii fuel d rhigh r with
    | Some radii =>
        Ok (fold_left (fun acc x => acc + I x k1 k2 k3 k4 * d * #2 * x)
              radii sum)
    | None => Diverged
    end.
Proof.
  induction fuel as [| fuel IH]; intros r sum; cbn [IntegratedI_loop
    IntegratedI_radii]; [reflexivity |].
  destruct (r <=? rhigh); [| reflexivity].
  rewrite IH. destruct (IntegratedI_radii fuel d rhigh (r + d));
    reflexivity.
Qed.

(** The Integrator's result is the sum, from left to right and starting at
    0, of [I(r) * dr * 2 * r] over the radii that the loop visits; it fails
    to return exactly when the budget ends before the radii do. *)
Lemma IntegratedI_fold_radii (fuel : nat)
  (d k1 k2 k3 k4 rlow rhigh : A) :
  IntegratedI fuel d k1 k2 k3 k4 rlow rhigh =
  match IntegratedI_radii fuel d rhigh rlow with
  | Some radii =>
      Ok (fold_left (fun acc x => acc + I x k1 k2 k3 k4 * d * #2 * x)
            radii #0)
  | None => Diverged
  end.
Proof. unfold IntegratedI. apply IntegratedI_loop_fold. Qed.

(** The loop over the timestamps with a non-empty [Flux]. *)
Lemma pointwise_loop_prefix (fuel : nat) (m : Model A)
  (coeffs : list A) (omega : A) (jd : list A) :
  forall Flux,
    pointwise_loop K fuel m coeffs omega jd Flux =
    (out <- pointwise_loop K fuel m coeffs omega jd [] ;;
     Ok (Flux ++ out)).
Proof.
  induction jd as [| jd_i rest IH]; intros Flux; cbn [pointwise_loop].
  - cbn [bind]. rewrite app_nil_r. reflexivity.
  - destruct (sample K fuel m coeffs omega jd_i) as [F | |]; cbn [bind];
      [| reflexivity | reflexivity].
    rewrite (IH (Flux ++ [F])), (IH ([] ++ [F])).
    destruct (pointwise_loop K fuel m coeffs omega rest [])
      as [out | |]; cbn [bind]; [| reflexivity | reflexivity].
    rewrite <- app_assoc. reflexivity.
Qed.

Lemma pointwise_loop_app (fuel : nat) (m : Model A)
  (coeffs : list A) (omega : A) (jd1 jd2 : list A) :
  forall Flux,
    pointwise_loop K fuel m coeffs omega (jd1 ++ jd2) Flux =
    (out1 <- pointwise_loop K fuel m coeffs omega jd1 Flux ;;
     pointwise_loop K fuel m coeffs omega jd2 out1).
Proof.
  induction jd1 as [| jd_i rest IH]; intros Flux; cbn [app
    pointwise_loop]; [reflexivity |].
  destruct (sample K fuel m coeffs omega jd_i) as [F | |]; cbn [bind];
    [apply IH | reflexivity | reflexivity].
Qed.

(** X4: the generator on no timestamp returns the empty sequence, and on a
    concatenation of two sequences that holds fewer than [2^32] timestamps
    it returns the concatenation of what it returns on each; if either run
    fails, so does the whole, with the first failure. *)
Theorem GenerateSynthetic_app (fuel : nat) (m : Model A) (jd1 jd2 : list A) :
  (Z.of_nat (length (jd1 ++ jd2)) < 2 ^ 32)%Z ->
  GenerateSynthetic K fuel [] m = Ok [] /\
  GenerateSynthetic K fuel (jd1 ++ jd2) m =
  (out1 <- GenerateSynthetic K fuel jd1 m ;;
   out2 <- GenerateSynthetic K fuel jd2 m ;;
   Ok (out1 ++ out2)).
Proof.
  intros Hsize. split; [reflexivity |].
  assert (Hsize1 : (Z.of_nat (length jd1) < 2 ^ 32)%Z)
    by (rewrite length_app in Hsize; lia).
  assert (Hsize2 : (Z.of_nat (length jd2) < 2 ^ 32)%Z)
    by (rewrite length_app in Hsize; lia).
  rewrite (@GenerateSynthetic_pointwise A SA CA K fuel m _ Hsize),
    (@GenerateSynthetic_pointwise A SA CA K fuel m _ Hsize1),
    (@GenerateSynthetic_pointwise A SA CA K fuel m _ Hsize2).
  destruct (calcOmega (pack_coeffs m)) as [omega | |]; cbn [bind];
    [| reflexivity | reflexivity].
  rewrite pointwise_loop_app.
  destruct (pointwise_loop K fuel m (pack_coeffs m) omega jd1 [])
    as [out1 | |]; cbn [bind]; [| reflexivity | reflexivity].
  apply pointwise_loop_prefix.
Qed.

End GenericExtras.

(** * Further properties, in the real reading *)

Section RealExtras.

Local Existing Instance real_arith.
Local Existing Instance real_cmath.
Local Open Scope R_scope.

(** *** The intensity profile *)

Lemma Rpow_one_base (y : R) : Rpow 1 y = 1.
Proof.
  unfold Rpow. destruct (Req_dec_T y 1); [reflexivity |].
  destruct (Rle_dec 1 0); [lra |].
  unfold Rpower. rewrite ln_1, Rmult_0_r. apply exp_0.
Qed.

Lemma Rpow_zero_base (y : R) : Rpow 0 y = 0.
Proof.
  unfold Rpow. destruct (Req_dec_T y 1); [reflexivity |].
  destruct (Rle_dec 0 0); [reflexivity | lra].
Qed.

Lemma Rpow_unit_interval (x y : R) :
  0 <= x <= 1 -> 0 < y -> 0 <= Rpow x y <= 1.
Proof.
  intros Hx Hy. unfold Rpow.
  destruct (Req_dec_T y 1); [exact Hx |].
  destruct (Rle_dec x 0); [lra |].
  unfold Rpower. split; [left; apply exp_pos |].
  assert (Hln : ln x <= 0).
  { destruct (Req_dec_T x 1) as [-> | Hne]; [rewrite ln_1; lra |].
    rewrite <- ln_1. left. apply ln_increasing; lra. }
  assert (Hprod : y * ln x <= 0) by nra.
  rewrite <- exp_0.
  destruct (Req_dec_T (y * ln x) 0) as [-> | Hne]; [lra |].
  left. apply exp_increasing. lra.
Qed.

(** X6: the intensity is even in [r], it is 1 at the centre of the disk
    and [1 - c1 - c2 - c3 - c4] at the limb, whatever the coefficients
    are. *)
Theorem intensity_centre_and_limb (k1 k2 k3 k4 : R) :
  (forall r, I (- r) k1 k2 k3 k4 = I r k1 k2 k3 k4) /\
  I 0 k1 k2 k3 k4 = 1 /\
  I 1 k1 k2 k3 k4 = 1 - k1 - k2 - k3 - k4.
Proof.
  split; [| split].
  - intros r. unfold I, square. real_ops.
    replace (- r * - r) with (r * r) by ring. reflexivity.
  - unfold I, square. real_ops.
    replace (1 - 0 * 0) with 1 by ring.
    rewrite !Rpow_one_base. ring.
  - unfold I, square. real_ops.
    replace (1 - 1 * 1) with 0 by ring.
    rewrite !Rpow_zero_base. ring.
Qed.

(** X7: for nonnegative coefficients the intensity on the disk
    ([r^2 <= 1]) lies between its value at the limb and its value at the
    centre: [1 - (c1 + c2 + c3 + c4) <= I(r) <= 1]. *)
Theorem intensity_bounds (r k1 k2 k3 k4 : R) :
  r * r <= 1 ->
  0 <= k1 -> 0 <= k2 -> 0 <= k3 -> 0 <= k4 ->
  1 - (k1 + k2 + k3 + k4) <= I r k1 k2 k3 k4 <= 1.
Proof.
  intros Hr H1 H2 H3 H4. unfold I, square. real_ops.
  assert (Hx : 0 <= 1 - r * r <= 1) by (split; nra).
  pose proof (Rpow_unit_interval (y := 1 / 4) Hx ltac:(lra)) as P1.
  pose proof (Rpow_unit_interval (y := 2 / 4) Hx ltac:(lra)) as P2.
  pose proof (Rpow_unit_interval (y := 3 / 4) Hx ltac:(lra)) as P3.
  pose proof (Rpow_unit_interval (y := 4 / 4) Hx ltac:(lra)) as P4.
  split; nra.
Qed.

(** Half-way to the limb, with the coefficients (0.5, 0.1, 0.2, 0.1). *)
Lemma intensity_bounds_witness :
  ((1 / 2) * (1 / 2) <= 1 /\ 0 <= 1 / 2 /\ 0 <= 1 / 10 /\ 0 <= 1 / 5 /\
   0 <= 1 / 10) /\
  1 - (1 / 2 + 1 / 10 + 1 / 5 + 1 / 10)
    <= I (1 / 2) (1 / 2) (1 / 10) (1 / 5) (1 / 10) <= 1.
Proof.
  assert (Hr : (1 / 2) * (1 / 2) <= 1) by lra.
  assert (H1 : 0 <= 1 / 2) by lra.
  assert (H2 : 0 <= 1 / 10) by lra.
  assert (H3 : 0 <= 1 / 5) by lra.
  split; [repeat split; assumption |].
  exact (@intensity_bounds (1 / 2) (1 / 2) (1 / 10) (1 / 5) (1 / 10)
           Hr H1 H2 H3 H2).
Defined.

(** *** The normalisation constant *)

(** X8: [calcOmega] on the packed vector, as a function of the model's
    coefficients: [Omega = 1/4 - c1/20 - c2/12 - 3 c3/28 - c4/8].  For
    nonnegative coefficients of sum at most 1 it lies in [[1/8, 1/4]], so
    the divisions by [omega] of lines 219 and 242 are by a positive
    number. *)
Theorem omega_of_physical_coefficients (m : Model R) :
  0 <= c1 m -> 0 <= c2 m -> 0 <= c3 m -> 0 <= c4 m ->
  c1 m + c2 m + c3 m + c4 m <= 1 ->
  exists omega,
    calcOmega (pack_coeffs m) = Ok omega /\
    omega = 1 / 4 - c1 m / 20 - c2 m / 12 - 3 * c3 m / 28 - c4 m / 8 /\
    1 / 8 <= omega <= 1 / 4.
Proof.
  intros H1 H2 H3 H4 Hsum.
  rewrite pack_coeffs_eq, (calcOmega_5 (SA:=real_arith)). real_ops.
  eexists. split; [reflexivity |]. split; [field | lra].
Qed.

(** The uniform disk of [edge_on_model]. *)
Lemma omega_of_physical_coefficients_witness :
  let m := edge_on_model in
  (0 <= c1 m /\ 0 <= c2 m /\ 0 <= c3 m /\ 0 <= c4 m /\
   c1 m + c2 m + c3 m + c4 m <= 1) /\
  exists omega,
    calcOmega (pack_coeffs m) = Ok omega /\
    omega = 1 / 4 - c1 m / 20 - c2 m / 12 - 3 * c3 m / 28 - c4 m / 8 /\
    1 / 8 <= omega <= 1 / 4.
Proof.
  cbv zeta.
  assert (H0 : 0 <= 0) by lra.
  assert (Hsum : c1 edge_on_model + c2 edge_on_model + c3 edge_on_model
                 + c4 edge_on_model <= 1)
    by (cbn [c1 c2 c3 c4 edge_on_model]; lra).
  split; [repeat split; try exact H0; exact Hsum |].
  exact (@omega_of_physical_coefficients edge_on_model H0 H0 H0 H0 Hsum).
Defined.

(** *** The folded phase and the window *)

Lemma Rabs_Rmodf (x : R) : Rabs (Rmodf x) = frac_part (Rabs x).
Proof.
  unfold Rmodf. destruct (Rle_dec 0 x) as [Hx | Hx].
  - rewrite (Rabs_pos_eq x Hx). apply Rabs_pos_eq.
    destruct (base_fp x). lra.
  - rewrite Rabs_Ropp, (Rabs_left x) by lra. apply Rabs_pos_eq.
    destruct (base_fp (- x)). lra.
Qed.

(** The folded phase by the fractional part of the orbits elapsed. *)
Lemma folded_phase_cases (K : Constants R) (m : Model R) (t : R) :
  let f := frac_part (Rabs (t / (period m * secondsInDay K))) in
  let phase := folded_phase K m t in
  - (1 / 2) < phase <= 1 / 2 /\
  (((phase >? - lit_0_25) && (phase <? lit_0_25))%D = true
   <-> f < 1 / 4 \/ 3 / 4 < f).
Proof.
  intros f phase.
  assert (Hf : 0 <= f < 1).
  { destruct (base_fp (Rabs (t / (period m * secondsInDay K)))).
    unfold f. lra. }
  assert (Hphase : phase = if Rlt_dec (1 / 2) f then f - 1 else f).
  { unfold phase, folded_phase, lit_0_5. real_ops.
    rewrite Rabs_Rmodf. fold f. unfold Rltb.
    destruct (Rlt_dec (1 / 2) f); reflexivity. }
  rewrite gate_real, Hphase.
  destruct (Rlt_dec (1 / 2) f); split; try lra; split; intros H; lra.
Qed.

(** X9: the folded phase lies in (-1/2, 1/2], and a timestamp is inside
    the window of line 208 exactly when the fractional part [f] of
    [|t| / (period * secondsInDay)] has [f < 1/4] or [f > 3/4]: the window
    is the half of every orbit that is centred on the epochs, and the
    opposite half (the secondary eclipse) is outside. *)
Theorem folded_phase_window (K : Constants R) (m : Model R) (t : R) :
  period m * secondsInDay K <> 0 ->
  let f := frac_part (Rabs (t / (period m * secondsInDay K))) in
  let phase := folded_phase K m t in
  - (1 / 2) < phase <= 1 / 2 /\
  (((phase >? - lit_0_25) && (phase <? lit_0_25))%D = true
   <-> f < 1 / 4 \/ 3 / 4 < f).
Proof.
  intros _. exact (folded_phase_cases K m t).
Qed.

(** [edge_on_model], half a period after the epoch. *)
Lemma folded_phase_window_witness :
  let K := real_constants in
  let m := edge_on_model in
  let t := seconds_since_epoch K m (2455000 + 1) in
  period m * secondsInDay K <> 0 /\
  let f := frac_part (Rabs (t / (period m * secondsInDay K))) in
  let phase := folded_phase K m t in
  - (1 / 2) < phase <= 1 / 2 /\
  (((phase >? - lit_0_25) && (phase <? lit_0_25))%D = true
   <-> f < 1 / 4 \/ 3 / 4 < f).
Proof.
  cbv zeta.
  assert (Hper : period edge_on_model * secondsInDay real_constants <> 0)
    by (cbn [period secondsInDay real_constants edge_on_model]; lra).
  split; [exact Hper |].
  exact (@folded_phase_window real_constants edge_on_model
           (seconds_since_epoch real_constants edge_on_model (2455000 + 1))
           Hper).
Defined.

(** *** The projected separation *)

(** The separation between the impact parameter and the orbital distance. *)
Lemma separation_between (K : Constants R) (m : Model R) (t : R) :
  0 <= normalisedDistance K m ->
  normalisedDistance K m * Rabs (cosi K m) <= separation K m t
    <= normalisedDistance K m /\
  separation K m (seconds_since_epoch K m (epoch m))
    = normalisedDistance K m * Rabs (cosi K m).
Proof.
  intros Hd.
  assert (Hbound : forall u,
             Rabs (cosi K m)
             <= R_sqrt.sqrt (Rsqr (sin u) + Rsqr (cosi K m * cos u)) <= 1).
  { intros u.
    pose proof (sin2_cos2 u) as Hsc.
    assert (Hci : Rsqr (cosi K m) <= 1).
    { unfold cosi. real_ops.
      pose proof (sin2_cos2 (i m * radiansInDegree K)) as H.
      pose proof (Rle_0_sqr (sin (i m * radiansInDegree K))). lra. }
    pose proof (Rle_0_sqr (sin u)) as Hs.
    pose proof (Rle_0_sqr (cos u)) as Hc.
    pose proof (Rle_0_sqr (cosi K m)) as Hci0.
    assert (Hmul : Rsqr (cosi K m * cos u) = Rsqr (cosi K m) * Rsqr (cos u))
      by (unfold Rsqr; ring).
    split.
    - rewrite <- sqrt_Rsqr_abs. apply sqrt_le_1_alt. rewrite Hmul. nra.
    - apply Rle_trans with (R_sqrt.sqrt 1); [| rewrite sqrt_1; lra].
      apply sqrt_le_1_alt. rewrite Hmul. nra. }
  assert (Hsep : forall u,
             separation K m u =
             normalisedDistance K m
             * R_sqrt.sqrt (Rsqr (sin (angFreq K m * u))
                     + Rsqr (cosi K m * cos (angFreq K m * u))))
    by (intros u; reflexivity).
  split.
  - rewrite Hsep. destruct (Hbound (angFreq K m * t)) as [Hlo Hhi].
    split; nra.
  - rewrite seconds_since_epoch_at_epoch, Hsep.
    rewrite Rmult_0_r, sin_0, cos_0.
    f_equal.
    replace (Rsqr 0 + Rsqr (cosi K m * 1)) with (Rsqr (cosi K m))
      by (unfold Rsqr; ring).
    apply sqrt_Rsqr_abs.
Qed.

(** X10: in exact arithmetic, for a period that is not zero, the separation
    lies between the impact parameter and the orbital distance:
    [d |cos i| <= z <= d] for [d = normalisedDistance >= 0], at every time;
    at the epoch it is the impact parameter [d |cos i|]. *)
Theorem separation_bounds (K : Constants R) (m : Model R) (t : R) :
  rs m * rSun K <> 0 ->
  period m * secondsInDay K <> 0 ->
  0 <= normalisedDistance K m ->
  normalisedDistance K m * Rabs (cosi K m) <= separation K m t
    <= normalisedDistance K m /\
  separation K m (seconds_since_epoch K m (epoch m))
    = normalisedDistance K m * Rabs (cosi K m).
Proof.
  intros _ _ Hd. exact (@separation_between K m t Hd).
Qed.

(** [edge_on_model], a twelfth of a period after the epoch. *)
Lemma separation_bounds_witness :
  let K := real_constants in
  let m := edge_on_model in
  let t := seconds_since_epoch K m (2455000 + 1 / 6) in
  (rs m * rSun K <> 0 /\ period m * secondsInDay K <> 0 /\
   0 <= normalisedDistance K m) /\
  normalisedDistance K m * Rabs (cosi K m) <= separation K m t
    <= normalisedDistance K m /\
  separation K m (seconds_since_epoch K m (epoch m))
    = normalisedDistance K m * Rabs (cosi K m).
Proof.
  cbv zeta.
  assert (Hrs : rs edge_on_model * rSun real_constants <> 0)
    by (cbn [rs rSun real_constants edge_on_model]; lra).
  assert (Hper : period edge_on_model * secondsInDay real_constants <> 0)
    by (cbn [period secondsInDay real_constants edge_on_model]; lra).
  assert (Hd : 0 <= normalisedDistance real_constants edge_on_model).
  { unfold normalisedDistance. real_ops.
    cbn [a rs AU rSun real_constants edge_on_model]. lra. }
  split; [split; [| split]; assumption |].
  exact (@separation_bounds real_constants edge_on_model
           (seconds_since_epoch real_constants edge_on_model
              (2455000 + 1 / 6)) Hrs Hper Hd).
Defined.

(** The loop over the timestamps when every sample has the same flux. *)
Lemma pointwise_loop_constant (K : Constants R) (fuel : nat)
  (m : Model R) (coeffs : list R) (omega v : R) (jd : list R) :
  (forall jd_i, sample K fuel m coeffs omega jd_i = Ok v) ->
  forall Flux,
    pointwise_loop K fuel m coeffs omega jd Flux =
    Ok (Flux ++ repeat v (length jd)).
Proof.
  intros Hall. induction jd as [| jd_i rest IH]; intros Flux;
    cbn [pointwise_loop length repeat].
  - rewrite app_nil_r. reflexivity.
  - rewrite Hall. cbn [bind]. rewrite IH, <- app_assoc. reflexivity.
Qed.

(** X11: a planet that never reaches the stellar disk leaves the light
    curve flat.  In exact arithmetic, for a period that is not zero, if the
    impact parameter [normalisedDistance * |cos i|] exceeds [1 + p] (with
    [p >= 0]), the generator returns the flux 1 for every timestamp of
    every sequence of fewer than [2^32] timestamps, with any iteration
    budget. *)
Theorem non_transiting_light_curve_is_flat (K : Constants R) (fuel : nat)
  (m : Model R) (jd : list R) :
  rs m * rSun K <> 0 ->
  period m * secondsInDay K <> 0 ->
  (Z.of_nat (length jd) < 2 ^ 32)%Z ->
  0 <= ratio_p K m ->
  1 + ratio_p K m < normalisedDistance K m * Rabs (cosi K m) ->
  GenerateSynthetic K fuel jd m = Ok (repeat 1 (length jd)).
Proof.
  intros Hrs _ Hsize Hp Hb.
  assert (Hd : 0 <= normalisedDistance K m).
  { pose proof (Rabs_pos (cosi K m)) as Habs.
    destruct (Rle_dec 0 (normalisedDistance K m)) as [H | H];
      [exact H | nra]. }
  assert (Hsample : forall coeffs omega jd_i,
             sample K fuel m coeffs omega jd_i = Ok 1).
  { intros coeffs omega jd_i. unfold sample.
    apply (sample_F_no_call (SA:=real_arith) (CA:=real_cmath)).
    unfold integrator_call. rewrite regime_of_real.
    destruct (@separation_between K m (seconds_since_epoch K m jd_i) Hd)
      as [[Hlo _] _].
    destruct (Rlt_dec _ _); [| reflexivity].
    destruct (Rlt_dec _ _); [| reflexivity].
    destruct (Rle_dec _ _); [lra |].
    destruct (Rlt_dec _ _); [reflexivity | lra]. }
  rewrite (@GenerateSynthetic_pointwise R real_arith real_cmath K fuel m jd
             Hsize).
  rewrite pack_coeffs_eq, (calcOmega_5 (SA:=real_arith)). cbn [bind].
  rewrite (@pointwise_loop_constant K fuel m _ _ 1 jd
             (fun jd_i => Hsample _ _ jd_i)).
  reflexivity.
Qed.

(** The impact parameter of [inclined_model] is about 5.4 stellar radii. *)
Lemma inclined_impact_parameter :
  normalisedDistance real_constants inclined_model
  * Rabs (cosi real_constants inclined_model)
  = 5 / 100 * 149597870700 / (1 * 695700000) * (1 / 2).
Proof.
  unfold normalisedDistance, cosi. real_ops.
  cbn [a rs i AU rSun radiansInDegree real_constants inclined_model].
  replace (60 * (PI / 180)) with (PI / 3) by field.
  rewrite cos_PI3, Rabs_pos_eq by lra. reflexivity.
Qed.

(** [inclined_model] on three timestamps. *)
Lemma non_transiting_light_curve_is_flat_witness :
  let K := real_constants in
  let m := inclined_model in
  let jd := [2455000; 2455000 + 1 / 6; 2455000 + 1] in
  (rs m * rSun K <> 0 /\ period m * secondsInDay K <> 0 /\
   (Z.of_nat (length jd) < 2 ^ 32)%Z /\ 0 <= ratio_p K m /\
   1 + ratio_p K m < normalisedDistance K m * Rabs (cosi K m)) /\
  GenerateSynthetic K 0 jd m = Ok (repeat 1 (length jd)).
Proof.
  cbv zeta.
  assert (Hrs : rs inclined_model * rSun real_constants <> 0)
    by (cbn [rs rSun real_constants inclined_model]; lra).
  assert (Hper : period inclined_model * secondsInDay real_constants <> 0)
    by (cbn [period secondsInDay real_constants inclined_model]; lra).
  assert (Hsize :
            (Z.of_nat (length [2455000; 2455000 + 1 / 6; 2455000 + 1])
             < 2 ^ 32)%Z) by (cbn [length]; lia).
  assert (Hp : 0 <= ratio_p real_constants inclined_model).
  { unfold ratio_p. real_ops.
    cbn [rp rs rJup rSun real_constants inclined_model]. lra. }
  assert (Hb : 1 + ratio_p real_constants inclined_model
               < normalisedDistance real_constants inclined_model
                 * Rabs (cosi real_constants inclined_model)).
  { rewrite inclined_impact_parameter. unfold ratio_p. real_ops.
    cbn [rp rs rJup rSun real_constants inclined_model]. lra. }
  split; [repeat split; assumption |].
  exact (@non_transiting_light_curve_is_flat real_constants 0 inclined_model
           [2455000; 2455000 + 1 / 6; 2455000 + 1] Hrs Hper Hsize Hp Hb).
Defined.

(** *** The radii at which the intensity is evaluated *)

(** The radii of a run with a nonnegative step lie between the bounds. *)
Lemma IntegratedI_radii_between (d rhigh : R) (fuel : nat) :
  0 <= d ->
  forall r radii,
    IntegratedI_radii fuel d rhigh r = Some radii ->
    Forall (fun x => r <= x <= rhigh) radii.
Proof.
  intros Hd. induction fuel as [| fuel IH]; intros r radii;
    cbn [IntegratedI_radii]; [discriminate |].
  cbn [dleb dadd real_arith].
  destruct (Rleb r rhigh) eqn:E.
  - apply Rleb_true in E.
    destruct (IntegratedI_radii fuel d rhigh (r + d)) as [tl |] eqn:Etl;
      cbn [option_map]; [| discriminate].
    intros H. injection H as <-. constructor; [lra |].
    apply IH in Etl. eapply Forall_impl; [| exact Etl].
    cbv beta. intros x Hx. lra.
  - intros H. injection H as <-. constructor.
Qed.

(** X13: for a radius ratio [0 <= p <= 1] and a separation [z >= 0], every
    radius at which the two calls of the Integrator evaluate the intensity
    lies on the disk, [r^2 <= 1]: [pow] is never asked for a root of a
    negative number. *)
Theorem integrator_radii_on_disk (p z phase rlow rhigh : R) (fuel : nat) :
  0 <= p <= 1 ->
  0 <= z ->
  integrator_call p z phase = Some (rlow, rhigh) ->
  match IntegratedI_radii fuel dr rhigh rlow with
  | Some radii => Forall (fun r => 0 <= 1 - r * r) radii
  | None => True
  end.
Proof.
  intros Hp Hz Hcall.
  assert (Hbounds : -1 <= rlow /\ rhigh <= 1).
  { revert Hcall. unfold integrator_call. rewrite regime_of_real.
    destruct (Rlt_dec (- (1 / 4)) phase); [| discriminate].
    destruct (Rlt_dec phase (1 / 4)); [| discriminate].
    destruct (Rle_dec z (1 - p)).
    - intros H. injection H as <- <-. real_ops. lra.
    - destruct (Rlt_dec (1 + p) z); [discriminate |].
      intros H. injection H as <- <-. real_ops. lra. }
  destruct (IntegratedI_radii fuel dr rhigh rlow) as [radii |] eqn:E;
    [| exact Logic.I].
  assert (Hd : 0 <= dr) by (rewrite dr_real; lra).
  pose proof (@IntegratedI_radii_between dr rhigh fuel Hd _ _ E) as Hall.
  eapply Forall_impl; [| exact Hall].
  cbv beta. intros x Hx. nra.
Qed.

(** The full-overlap call at [p = 0.1], [z = 0.5]. *)
Lemma integrator_radii_on_disk_witness :
  (0 <= 1 / 10 <= 1 /\ 0 <= 1 / 2 /\
   integrator_call (1 / 10) (1 / 2) 0
   = Some (1 / 2 - 1 / 10, 1 / 2 + 1 / 10)) /\
  match IntegratedI_radii 300 dr (1 / 2 + 1 / 10) (1 / 2 - 1 / 10) with
  | Some radii => Forall (fun r => 0 <= 1 - r * r) radii
  | None => True
  end.
Proof.
  assert (Hp : 0 <= 1 / 10 <= 1) by lra.
  assert (Hz : 0 <= 1 / 2) by lra.
  assert (Hcall : integrator_call (1 / 10) (1 / 2) 0
                  = Some (1 / 2 - 1 / 10, 1 / 2 + 1 / 10)).
  { unfold integrator_call. rewrite regime_of_real.
    destruct (Rlt_dec (- (1 / 4)) 0); [| lra].
    destruct (Rlt_dec 0 (1 / 4)); [| lra].
    destruct (Rle_dec (1 / 2) (1 - 1 / 10)); [| lra].
    reflexivity. }
  split; [repeat split; try lra; exact Hcall |].
  exact (@integrator_radii_on_disk (1 / 10) (1 / 2) 0 _ _ 300 Hp Hz Hcall).
Defined.

End RealExtras.

(** * Further properties, in the [double] reading *)

Section DoubleExtras.

Local Existing Instance float_arith.
Local Open Scope dbl_scope.

(** The flux of the full-overlap branch at [p = 0]. *)
Lemma full_overlap_flux_zero_radius (x z omega : float) :
  #1 - (square #0 * (x * (#1 / full_overlap_divisor #0 z)) / #4 / omega)
  = PrimFloat.nan.
Proof.
  unfold full_overlap_divisor. cbn [dmul ddiv dsub of_Z float_arith].
  change (float_of_Z 0) with PrimFloat.zero.
  assert (Hnorm : not_finite
            (PrimFloat.div (float_of_Z 1)
               (PrimFloat.mul (PrimFloat.mul (float_of_Z 4) z)
                  PrimFloat.zero))).
  { destruct (mul_zero_cases (PrimFloat.mul (float_of_Z 4) z))
      as [-> | [-> | ->]].
    - left; reflexivity.
    - right; left; reflexivity.
    - right; right; reflexivity. }
  pose proof (mul_not_finite x Hnorm) as Hprod.
  destruct Hprod as [-> | [-> | ->]];
    change (PrimFloat.div (PrimFloat.div
              (PrimFloat.mul (square PrimFloat.zero) _) (float_of_Z 4))
              omega)
      with (PrimFloat.div PrimFloat.nan omega);
    rewrite div_nan_l; reflexivity.
Qed.

(** X14: a planet of radius zero does not leave the flux at 1.  With
    [p = 0] the divisor [4*z*p] of the full-overlap branch is a zero or
    NaN, the normalisation is not finite, and [square(p) * integral] is
    [0 * infinity]: whenever the branch is taken and the Integrator
    returns, the flux is NaN, for every C library, coefficient vector,
    [omega] and separation. *)
Theorem zero_radius_planet_flux_is_nan (L : Cmath float)
  (K : Constants float) (fuel : nat) (coeffs : list float)
  (omega z phase F : float) :
  regime_of #0 z phase = FullOverlap ->
  sample_F K fuel coeffs omega #0 z phase = Ok F ->
  F = PrimFloat.nan.
Proof.
  intros Hregime. rewrite sample_F_regime, Hregime.
  destruct (IntegratedI_vec fuel dr coeffs (z - #0) (z + #0)) as [x | |];
    cbn [bind]; intros H; try discriminate H.
  injection H as <-. apply full_overlap_flux_zero_radius.
Qed.

(** Inside the disk, at [z = 0.5] and mid-window: the Integrator takes one
    step and the flux is NaN. *)
Lemma zero_radius_planet_flux_is_nan_witness :
  regime_of #0 (#1 / #2) #0 = FullOverlap /\
  forall (L : Cmath float) (K : Constants float),
    sample_F K 3 (pack_coeffs uniform_model_d) lit_0_25 #0 (#1 / #2) #0
    = Ok PrimFloat.nan.
Proof.
  assert (Hregime : regime_of #0 (#1 / #2) #0 = FullOverlap)
    by reflexivity.
  split; [exact Hregime |].
  intros L K.
  destruct (sample_F K 3 (pack_coeffs uniform_model_d) lit_0_25 #0
              (#1 / #2) #0) as [F | |] eqn:E.
  - f_equal.
    exact (@zero_radius_planet_flux_is_nan L K 3
             (pack_coeffs uniform_model_d) lit_0_25 (#1 / #2) #0 F
             Hregime E).
  - exfalso. revert E. rewrite sample_F_regime.
    replace (regime_of #0 (#1 / #2) #0) with (@FullOverlap)
      by (vm_compute; reflexivity).
    vm_compute. discriminate.
  - exfalso. revert E. rewrite sample_F_regime.
    replace (regime_of #0 (#1 / #2) #0) with (@FullOverlap)
      by (vm_compute; reflexivity).
    vm_compute. discriminate.
Defined.

(** The flux of the partial-overlap branch once the normalisation is
    infinite. *)
Lemma partial_overlap_flux_not_finite (x y w : float) :
  not_finite (#1 - (x * PrimFloat.infinity * y / w)).
Proof.
  cbn [dmul ddiv dsub of_Z float_arith].
  apply one_sub_not_finite, div_not_finite_l, mul_not_finite_l,
    mul_infinity_not_finite.
Qed.

(** X12: the division of line 229 is not guarded either.  When a sample
    takes the partial-overlap branch with [startPoint = z - p] equal to 1
    (last contact: the test of line 221 is strict, so [z = 1 + p] is not
    treated as no overlap), [1 - a] is 0, the normalisation is [+infinity],
    and the flux that the sample returns is an infinity or NaN, for every C
    library, coefficient vector and [omega]. *)
Theorem last_contact_zero_divisor (L : Cmath float) (K : Constants float)
  (fuel : nat) (coeffs : list float) (omega p z phase : float) :
  regime_of p z phase = PartialOverlap ->
  z - p = #1 ->
  #1 - square (z - p) = #0 /\
  #1 / (#1 - square (z - p)) = PrimFloat.infinity /\
  forall F,
    sample_F K fuel coeffs omega p z phase = Ok F -> not_finite F.
Proof.
  intros Hregime Hstart.
  rewrite sample_F_regime, Hregime, Hstart.
  split; [reflexivity |]. split; [reflexivity |].
  intros F.
  destruct (IntegratedI_vec fuel dr coeffs #1 #1) as [x | |];
    cbn [bind]; intros H; try discriminate H.
  injection H as <-.
  exact (partial_overlap_flux_not_finite x
           (square p * dacos ((z - #1) / p)
            - dsqrt (square p - square (z - #1)) * (z - #1))
           (#4 * M_PI K * omega)).
Qed.

(** Last contact for [p = 0.5], at mid-window: [z = 1.5], and the Integrator
    returns after one step. *)
Lemma last_contact_zero_divisor_witness :
  (regime_of (#1 / #2) (#3 / #2) #0 = PartialOverlap /\
   #3 / #2 - #1 / #2 = (#1 : float)) /\
  forall (L : Cmath float) (K : Constants float),
    (#1 - square (#3 / #2 - #1 / #2) = (#0 : float) /\
     #1 / (#1 - square (#3 / #2 - #1 / #2)) = PrimFloat.infinity /\
     forall F,
       sample_F K 2 (pack_coeffs uniform_model_d) lit_0_25 (#1 / #2)
         (#3 / #2) #0 = Ok F ->
       not_finite F) /\
    exists x,
      IntegratedI_vec 2 dr (pack_coeffs uniform_model_d)
        (#3 / #2 - #1 / #2) #1 = Ok x.
Proof.
  split; [split; reflexivity |].
  intros L K. split.
  - exact (@last_contact_zero_divisor L K 2 (pack_coeffs uniform_model_d)
             lit_0_25 (#1 / #2) (#3 / #2) #0 eq_refl eq_refl).
  - eexists. vm_compute. reflexivity.
Defined.

(** X4 on two sequences of one timestamp each, for every model, C library
    and iteration budget. *)
Lemma GenerateSynthetic_app_witness :
  (Z.of_nat (length ([#2455000] ++ [#2455001] : list float)) < 2 ^ 32)%Z /\
  forall (L : Cmath float) (K : Constants float) (fuel : nat)
         (m : Model float),
    GenerateSynthetic K fuel [] m = Ok [] /\
    GenerateSynthetic K fuel ([#2455000] ++ [#2455001]) m =
    (out1 <- GenerateSynthetic K fuel [#2455000] m ;;
     out2 <- GenerateSynthetic K fuel [#2455001] m ;;
     Ok (out1 ++ out2)).
Proof.
  assert (Hsize :
            (Z.of_nat (length ([#2455000] ++ [#2455001] : list float))
             < 2 ^ 32)%Z) by (cbn [length app]; lia).
  split; [exact Hsize |].
  intros L K fuel m.
  exact (@GenerateSynthetic_app float float_arith L K fuel m
           [#2455000] [#2455001] Hsize).
Defined.

End DoubleExtras.
